(** * rovio/FilterStates.hpp: depth parameterisation, filter state layout
      and feature-slot lifecycle.

    A shallow embedding of [include/rovio/FilterStates.hpp].

    - C++ [double] is Rocq's primitive binary64 [float] (IEEE 754, round to
      nearest even), so the arithmetic of [DepthMap] is evaluated bit for bit.
    - C++ [int] is [Z] (no arithmetic is done on the integers of this header).
    - Fixed-capacity arrays ([T x[nMax]], LWF's [ArrayElement<T,n>]) are lists
      read with stdpp's lookup and written with stdpp's insert.  An index
      outside the array is undefined behaviour in the source; the model reads
      [None] there and leaves the array unchanged on a write.
    - The types and operations of the external libraries the header calls
      (kindr quaternions, lightweight_filtering's [NormalVectorElement], the C
      math library, the vision types) are parameters, collected in type
      classes. *)

From Stdlib Require Import ZArith Lia Floats Ascii String.
From stdpp Require Import base list strings pretty.

#[local] Set Warnings "-inexact-float".
#[local] Open Scope float_scope.

(** ** Eigen vectors and small fixed-size matrices *)

Definition V2D : Type := float * float.
Definition V3D : Type := float * float * float.
Definition M2D : Type := V2D * V2D.
Definition M3D : Type := V3D * V3D * V3D.

Definition V2D_Zero : V2D := (0, 0).
Definition V3D_Zero : V3D := (0, 0, 0).
Definition M2D_Identity : M2D := ((1, 0), (0, 1)).
Definition M3D_Identity : M3D := ((1, 0, 0), (0, 1, 0), (0, 0, 1)).

Definition V3D_at (v : V3D) (k : nat) : float :=
  let '(x, y, z) := v in
  match k with O => x | S O => y | _ => z end.

(** [m(r,c)] for a 3x3 matrix stored by rows. *)
Definition M3D_at (m : M3D) (r c : nat) : float :=
  let '(r0, r1, r2) := m in
  V3D_at (match r with O => r0 | S O => r1 | _ => r2 end) c.

Definition V3D_add (a b : V3D) : V3D :=
  let '(ax, ay, az) := a in
  let '(bx, by_, bz) := b in
  (ax + bx, ay + by_, az + bz).

(** ** The C math library

    [std::exp], [std::sinh], [std::cosh] and [std::pow] are not IEEE basic
    operations and are left to the platform's libm; [fabs], [std::sqrt] and
    the four arithmetic operations are the primitive ones. *)

Class Libm := {
  c_exp : float -> float;
  c_sinh : float -> float;
  c_cosh : float -> float;
  c_pow : float -> float -> float
}.

(** ** Standard output

    [std::cout << ...] is modelled by a writer: a computation returns its
    value together with the text it has written. *)

Definition Cout (A : Type) : Type := A * list string.

#[global] Instance Cout_ret : MRet Cout := fun A a => (a, []).
#[global] Instance Cout_bind : MBind Cout := fun A B k m =>
  let '(a, o1) := m in
  let '(b, o2) := k a in
  (b, o1 ++ o2).
Definition cout_print (s : string) : Cout unit := (tt, [s]).

Definition endl : string := String "010"%char EmptyString.

(** ** class DepthMap *)

Module DepthMap.

Inductive DepthType : Set :=
| REGULAR      (* Regular Depth p = d *)
| INVERSE      (* Inverse Depth p = 1/d *)
| LOG          (* Logarithmic Depth p = ln(d) *)
| HYPERBOLIC.  (* Hyperbolic Depth p = asinh(d) *)

Record t := mk { type_ : DepthType }.

(** [void setType(const DepthType& type)] *)
Definition setType (type : DepthType) (_ : t) : t := mk type.

(** [DepthMap(const DepthType& type = REGULAR)] *)
Definition ctor (type : DepthType) : t := mk type.
Definition ctor_default : t := ctor REGULAR.

(** [void setType(const int& type)] *)
Definition setType_int (type : Z) (_ : t) : Cout t :=
  match type with
  | 0%Z => mret (mk REGULAR)
  | 1%Z => mret (mk INVERSE)
  | 2%Z => mret (mk LOG)
  | 3%Z => mret (mk HYPERBOLIC)
  | _ =>
      cout_print ("Invalid type for depth parameterization: "
                  +:+ pretty type +:+ endl) ;;
      mret (mk REGULAR)
  end.

(** The four outputs [d], [d_p], [p_d], [p_d_p] of [map], in that order. *)
Definition outputs : Type := float * float * float * float.

Definition out_d (o : outputs) : float := o.1.1.1.
Definition out_d_p (o : outputs) : float := o.1.1.2.
Definition out_p_d (o : outputs) : float := o.1.2.
Definition out_p_d_p (o : outputs) : float := o.2.

Definition mapRegular (p : float) : outputs :=
  let d := p in
  let d_p := 1.0 in
  let p_d := 1.0 in
  let p_d_p := 0.0 in
  (d, d_p, p_d, p_d_p).

(** The local [p_temp] of [mapInverse] after its guard. *)
Definition mapInverse_p_temp (p : float) : float :=
  let p_temp := p in
  if abs p_temp <? 1e-6 then
    if 0 <=? p_temp then 1e-6 else -1e-6
  else p_temp.

Definition mapInverse (p : float) : outputs :=
  let p_temp := mapInverse_p_temp p in
  let d := 1 / p_temp in
  let d_p := (- d) * d in
  let p_d := (- p_temp) * p_temp in
  let p_d_p := (-2) * p_temp in
  (d, d_p, p_d, p_d_p).

Section WithLibm.
Context {libm : Libm}.

Definition mapLog (p : float) : outputs :=
  let d := c_exp p in
  let d_p := c_exp p in
  let p_d := 1 / d in
  let p_d_p := (-1) / c_pow d 2 * d_p in
  (d, d_p, p_d, p_d_p).

Definition mapHyperbolic (p : float) : outputs :=
  let d := c_sinh p in
  let d_p := c_cosh p in
  let p_d := 1 / sqrt (c_pow d 2 + 1) in
  let p_d_p := (- d) / c_pow (c_pow d 2 + 1) 1.5 * d_p in
  (d, d_p, p_d, p_d_p).

(** [void map(p, d, d_p, p_d, p_d_p) const].  The [default:] branch of
    the source's switch is not reachable from a [DepthType]. *)
Definition map (dm : t) (p : float) : outputs :=
  match type_ dm with
  | REGULAR => mapRegular p
  | INVERSE => mapInverse p
  | LOG => mapLog p
  | HYPERBOLIC => mapHyperbolic p
  end.
End WithLibm.

End DepthMap.

(** ** External collaborators

    kindr's [QPD] (a unit quaternion) and lightweight_filtering's
    [NormalVectorElement] (a bearing vector stored with two parameters) are
    used through the operations below only.  A [set...] method overwrites
    the object it is called on, so it is modelled by the value it leaves. *)

Class Kindr (QPD : Type) := {
  QPD_setIdentity : QPD;                    (* q.setIdentity() *)
  QPD_setFromVectors : V3D -> V3D -> QPD;   (* q.setFromVectors(v1,v2) *)
  QPD_inverted : QPD -> QPD;                (* q.inverted() *)
  QPD_rotate : QPD -> V3D -> V3D;           (* q.rotate(v) *)
  QPD_mul : QPD -> QPD -> QPD               (* q1*q2 *)
}.

Class LWF_NormalVector (NVE : Type) := {
  NVE_setIdentity : NVE;                    (* n.setIdentity() *)
  NVE_setFromVector : V3D -> NVE;           (* n.setFromVector(vec) *)
  NVE_getVec : NVE -> V3D                   (* n.getVec() *)
}.

(** [Eigen::Vector3d::norm()] *)
Definition V3D_norm (v : V3D) : float :=
  let '(x, y, z) := v in sqrt (x * x + y * y + z * z).

(** ** Dynamic-size matrices and Eigen blocks

    The covariance matrix is a list of rows.  [block_assign R C r0 c0 src]
    is [M.block<R,C>(r0,c0) = src]: entry [(r0+r, c0+c)] receives
    [src r c].  Eigen requires the block to lie inside the matrix; the model
    writes the part of it that does. *)

Abbreviation Matrix := (list (list float)).

Definition coeff (M : Matrix) (r c : nat) : option float :=
  row ← M !! r; row !! c.

Definition mat_imap (f : nat -> nat -> float -> float) (M : Matrix) : Matrix :=
  imap (fun r row => imap (f r) row) M.

Definition in_block (R C r0 c0 r c : nat) : bool :=
  bool_decide (r0 <= r < r0 + R)%nat && bool_decide (c0 <= c < c0 + C)%nat.

Definition block_write (R C r0 c0 : nat) (src : nat -> nat -> float)
    (r c : nat) (x : float) : float :=
  if in_block R C r0 c0 r c then src (r - r0)%nat (c - c0)%nat else x.

Definition block_assign (R C r0 c0 : nat) (src : nat -> nat -> float)
    (M : Matrix) : Matrix :=
  mat_imap (block_write R C r0 c0 src) M.

Definition block_setZero (R C r0 c0 : nat) : Matrix -> Matrix :=
  block_assign R C r0 c0 (fun _ _ => 0).

Definition Identity_at (r c : nat) : float :=
  if bool_decide (r = c) then 1 else 0.

Definition block_setIdentity (R C r0 c0 : nat) : Matrix -> Matrix :=
  block_assign R C r0 c0 Identity_at.

(** [m.block<R,C>(r0,c0)] of a 3x3 matrix, read as a source. *)
Definition M3D_block (m : M3D) (r0 c0 : nat) : nat -> nat -> float :=
  fun r c => M3D_at m (r0 + r) (c0 + c).

Definition Matrix_wf (R C : nat) (M : Matrix) : Prop :=
  length M = R /\ Forall (fun row => length row = C) M.

(** ** State layout (LWF::State)

    The element list is the template argument list of [class State]; the
    tangent-space dimension of each element kind is LWF's. *)

Inductive ElementKind : Set :=
| VectorElement (n : nat)
| QuaternionElement
| ScalarElement
| NormalVectorElement
| AuxiliaryElement.

Definition kind_D (k : ElementKind) : nat :=
  match k with
  | VectorElement n => n
  | QuaternionElement => 3
  | ScalarElement => 1
  | NormalVectorElement => 2
  | AuxiliaryElement => 0
  end.

(** An element is an array of [n] entries of one kind. *)
Definition Layout : Type := list (ElementKind * nat).

Definition element_D (e : ElementKind * nat) : nat := (kind_D e.1 * e.2)%nat.

Definition layout_D (l : Layout) : nat := foldr (fun e acc => (element_D e + acc)%nat) 0%nat l.

(** [getId<e>(i)]: first tangent-space index of entry [i] of element [e]. *)
Definition layout_getId (l : Layout) (e i : nat) : nat :=
  (layout_D (take e l) + from_option (fun k => kind_D k.1 * i) 0 (l !! e))%nat.

Module StateIdx.
Definition _pos : nat := 0.
Definition _vel : nat := S _pos.
Definition _acb : nat := S _vel.
Definition _gyb : nat := S _acb.
Definition _att : nat := S _gyb.
Definition _vep : nat := S _att.
Definition _vea : nat := S _vep.
Definition _dep : nat := S _vea.
Definition _nor : nat := S _dep.
Definition _aux : nat := S _nor.
End StateIdx.
Import StateIdx.

Section Filter.
Context {QPD NVE : Type} {kindr : Kindr QPD} {lwf : LWF_NormalVector NVE}
  {libm : Libm}.
(** [MultilevelPatchSet<nLevels,patchSize,nMax>] and [cv::Mat]. *)
Context {MultilevelPatchSet cvMat : Type}.
(** The template parameters [nMax] and [nCam]. *)
Variables (nMax nCam : nat).

(** ** class StateAuxiliary *)

Record StateAuxiliary := mkStateAuxiliary {
  MwWMest_ : V3D;
  MwWMmeas_ : V3D;
  wMeasCov_ : M3D;
  A_red_ : list M2D;
  b_red_ : list V2D;
  bearingMeas_ : list NVE;
  camID_ : list Z;
  bearingCorners_ : list (V2D * V2D);
  qCM_ : list QPD;
  MrMC_ : list V3D;
  doVECalibration_ : bool;
  depthMap_ : DepthMap.t;
  depthTypeInt_ : Z;
  activeFeature_ : Z;
  activeCameraCounter_ : Z
}.

(** [StateAuxiliary()].  The member [depthMap_] is default-constructed
    before the body runs, then configured from [depthTypeInt_]. *)
Definition StateAuxiliary_ctor : Cout StateAuxiliary :=
  let depthMap0 := DepthMap.ctor_default in
  let depthTypeInt := 1%Z in
  depthMap ← DepthMap.setType_int depthTypeInt depthMap0;
  mret {|
    MwWMest_ := V3D_Zero;
    MwWMmeas_ := V3D_Zero;
    wMeasCov_ := M3D_Identity;
    A_red_ := replicate nMax M2D_Identity;
    b_red_ := replicate nMax V2D_Zero;
    bearingMeas_ := replicate nMax NVE_setIdentity;
    camID_ := replicate nMax 0%Z;
    bearingCorners_ := replicate nMax (V2D_Zero, V2D_Zero);
    qCM_ := replicate nCam QPD_setIdentity;
    MrMC_ := replicate nCam V3D_Zero;
    doVECalibration_ := true;
    depthMap_ := depthMap;
    depthTypeInt_ := depthTypeInt;
    activeFeature_ := 0%Z;
    activeCameraCounter_ := 0%Z
  |}.

Definition set_doVECalibration (b : bool) (a : StateAuxiliary) : StateAuxiliary :=
  mkStateAuxiliary (MwWMest_ a) (MwWMmeas_ a) (wMeasCov_ a) (A_red_ a)
    (b_red_ a) (bearingMeas_ a) (camID_ a) (bearingCorners_ a) (qCM_ a)
    (MrMC_ a) b (depthMap_ a) (depthTypeInt_ a) (activeFeature_ a)
    (activeCameraCounter_ a).

Definition StateAuxiliary_wf (a : StateAuxiliary) : Prop :=
  length (A_red_ a) = nMax /\ length (b_red_ a) = nMax /\
  length (bearingMeas_ a) = nMax /\ length (camID_ a) = nMax /\
  length (bearingCorners_ a) = nMax /\
  length (qCM_ a) = nCam /\ length (MrMC_ a) = nCam.

(** ** class State *)

Definition State_layout : Layout :=
  [ (VectorElement 3, 1%nat); (VectorElement 3, 1%nat);
    (VectorElement 3, 1%nat); (VectorElement 3, 1%nat);
    (QuaternionElement, 1%nat);
    (VectorElement 3, nCam);
    (QuaternionElement, nCam);
    (ScalarElement, nMax);
    (NormalVectorElement, nMax);
    (AuxiliaryElement, 1%nat) ].

Definition E_ : nat := length State_layout.
Definition D_ : nat := layout_D State_layout.
Definition getId (e i : nat) : nat := layout_getId State_layout e i.

(** The element blocks [get<_pos>()] ... [get<_aux>()]. *)
Record State := mkState {
  st_pos : V3D;
  st_vel : V3D;
  st_acb : V3D;
  st_gyb : V3D;
  st_att : QPD;
  st_vep : list V3D;
  st_vea : list QPD;
  st_dep : list float;
  st_nor : list NVE;
  st_aux : StateAuxiliary
}.

Definition State_wf (s : State) : Prop :=
  length (st_vep s) = nCam /\ length (st_vea s) = nCam /\
  length (st_dep s) = nMax /\ length (st_nor s) = nMax /\
  StateAuxiliary_wf (st_aux s).

(** [State()]: [base] holds the element blocks as LWF's constructor
    leaves them; the auxiliary element is built by [StateAuxiliary()].
    The element names set in the body are not modelled. *)
Definition State_ctor (base : State) : Cout State :=
  aux ← StateAuxiliary_ctor;
  mret (mkState (st_pos base) (st_vel base) (st_acb base) (st_gyb base)
          (st_att base) (st_vep base) (st_vea base) (st_dep base)
          (st_nor base) aux).

Definition set_st_pos (v : V3D) (s : State) : State :=
  mkState v (st_vel s) (st_acb s) (st_gyb s) (st_att s) (st_vep s)
    (st_vea s) (st_dep s) (st_nor s) (st_aux s).
Definition set_st_att (q : QPD) (s : State) : State :=
  mkState (st_pos s) (st_vel s) (st_acb s) (st_gyb s) q (st_vep s)
    (st_vea s) (st_dep s) (st_nor s) (st_aux s).
Definition set_st_dep (i : nat) (d : float) (s : State) : State :=
  mkState (st_pos s) (st_vel s) (st_acb s) (st_gyb s) (st_att s) (st_vep s)
    (st_vea s) (<[i := d]> (st_dep s)) (st_nor s) (st_aux s).
Definition set_st_nor (i : nat) (n : NVE) (s : State) : State :=
  mkState (st_pos s) (st_vel s) (st_acb s) (st_gyb s) (st_att s) (st_vep s)
    (st_vea s) (st_dep s) (<[i := n]> (st_nor s)) (st_aux s).
Definition set_st_aux (a : StateAuxiliary) (s : State) : State :=
  mkState (st_pos s) (st_vel s) (st_acb s) (st_gyb s) (st_att s) (st_vep s)
    (st_vea s) (st_dep s) (st_nor s) a.

Definition get_WrWM (s : State) : V3D := st_pos s.
Definition get_MvM (s : State) : V3D := st_vel s.
Definition get_acb (s : State) : V3D := st_acb s.
Definition get_gyb (s : State) : V3D := st_gyb s.
Definition get_qWM (s : State) : QPD := st_att s.

Definition get_CfP (s : State) (i : nat) : option V3D :=
  NVE_getVec <$> st_nor s !! i.

Definition get_qCM (s : State) (camID : nat) : option QPD :=
  if doVECalibration_ (st_aux s) then st_vea s !! camID
  else qCM_ (st_aux s) !! camID.

Definition get_MrMC (s : State) (camID : nat) : option V3D :=
  if doVECalibration_ (st_aux s) then st_vep s !! camID
  else MrMC_ (st_aux s) !! camID.

Definition get_WrWC (s : State) (camID : nat) : option V3D :=
  MrMC ← get_MrMC s camID;
  Some (V3D_add (st_pos s) (QPD_rotate (st_att s) MrMC)).

Definition get_qCW (s : State) (camID : nat) : option QPD :=
  qCM ← get_qCM s camID;
  Some (QPD_mul qCM (QPD_inverted (st_att s))).

Definition get_depth (s : State) (i : nat) : option float :=
  p ← st_dep s !! i;
  Some (DepthMap.out_d (DepthMap.map (depthMap_ (st_aux s)) p)).

(** ** class FilterState *)

Record FilterState := mkFilterState {
  state_ : State;
  cov_ : Matrix;
  usePredictionMerge_ : bool;
  mlps_ : MultilevelPatchSet;
  img_ : list cvMat;
  patchDrawing_ : cvMat;
  imgTime_ : float;
  imageCounter_ : Z
}.

Definition FilterState_wf (fs : FilterState) : Prop :=
  State_wf (state_ fs) /\ Matrix_wf D_ D_ (cov_ fs) /\ length (img_ fs) = nCam.

(** [FilterState()]: [base] is the object as the base-class and member
    constructors leave it; its state is built by [State()]. *)
Definition FilterState_ctor (base : FilterState) : Cout FilterState :=
  s ← State_ctor (state_ base);
  mret {|
    state_ := s;
    cov_ := cov_ base;
    usePredictionMerge_ := true;
    mlps_ := mlps_ base;
    img_ := img_ base;
    patchDrawing_ := patchDrawing_ base;
    imgTime_ := 0.0;
    imageCounter_ := 0%Z
  |}.

Definition set_state_cov (s : State) (cov : Matrix) (fs : FilterState) : FilterState :=
  mkFilterState s cov (usePredictionMerge_ fs) (mlps_ fs) (img_ fs)
    (patchDrawing_ fs) (imgTime_ fs) (imageCounter_ fs).

Definition initWithImuPose (WrWM : V3D) (qMW : QPD) (fs : FilterState) : FilterState :=
  let s := state_ fs in
  let s := set_st_pos (QPD_rotate qMW WrWM) s in
  let s := set_st_att (QPD_inverted qMW) s in
  set_state_cov s (cov_ fs) fs.

Definition initWithAccelerometer (fMeasInit : V3D) (fs : FilterState) : FilterState :=
  let unitZ : V3D := (0, 0, 1) in
  let s := state_ fs in
  let s :=
    if 1e-6 <? V3D_norm fMeasInit
    then set_st_att (QPD_setFromVectors unitZ fMeasInit) s
    else set_st_att QPD_setIdentity s in
  set_state_cov s (cov_ fs) fs.

Definition initializeFeatureState (i : nat) (n : V3D) (d : float)
    (initCov : M3D) (fs : FilterState) : FilterState :=
  let s := state_ fs in
  let s := set_st_dep i d s in
  let s := set_st_nor i (NVE_setFromVector n) s in
  let cov := cov_ fs in
  let cov := block_setZero D_ 1 0 (getId _dep i) cov in
  let cov := block_setZero 1 D_ (getId _dep i) 0 cov in
  let cov := block_setZero D_ 2 0 (getId _nor i) cov in
  let cov := block_setZero 2 D_ (getId _nor i) 0 cov in
  let cov := block_assign 1 1 (getId _dep i) (getId _dep i) (M3D_block initCov 0 0) cov in
  let cov := block_assign 1 2 (getId _dep i) (getId _nor i) (M3D_block initCov 0 1) cov in
  let cov := block_assign 2 1 (getId _nor i) (getId _dep i) (M3D_block initCov 1 0) cov in
  let cov := block_assign 2 2 (getId _nor i) (getId _nor i) (M3D_block initCov 1 1) cov in
  set_state_cov s cov fs.

Definition removeFeature (i : nat) (fs : FilterState) : FilterState :=
  let s := state_ fs in
  let s := set_st_dep i 1.0 s in
  let s := set_st_nor i NVE_setIdentity s in
  let cov := cov_ fs in
  let cov := block_setZero D_ 1 0 (getId _dep i) cov in
  let cov := block_setZero 1 D_ (getId _dep i) 0 cov in
  let cov := block_setZero D_ 2 0 (getId _nor i) cov in
  let cov := block_setZero 2 D_ (getId _nor i) 0 cov in
  let cov := block_setIdentity 1 1 (getId _dep i) (getId _dep i) cov in
  let cov := block_setIdentity 2 2 (getId _nor i) (getId _nor i) cov in
  set_state_cov s cov fs.

End Filter.

Arguments getId nMax nCam e i : simpl never.
Arguments D_ nMax nCam : simpl never.

(** ** The covariance entries of one feature slot

    A slot owns the depth index [a] and the two bearing indices [b], [b+1].
    [slot_write a b self] is the net effect on entry [(r,c)] of the block
    writes of [initializeFeatureState] and [removeFeature]: inside the slot's
    own 3x3 block the entry is [self], read in the order depth, bearing 1,
    bearing 2; on the rest of the slot's rows and columns it is zero; every
    other entry is kept. *)

Definition in_slot (a b r : nat) : bool :=
  bool_decide (r = a) || bool_decide (b <= r < b + 2)%nat.

Definition slot_pos (a b r : nat) : nat :=
  if bool_decide (r = a) then 0%nat else S (r - b).

Definition slot_write (a b : nat) (self : nat -> nat -> float)
    (r c : nat) (x : float) : float :=
  if in_slot a b r && in_slot a b c then self (slot_pos a b r) (slot_pos a b c)
  else if in_slot a b r || in_slot a b c then 0
  else x.

(** Covariance index of position [k] (0 depth, 1 and 2 bearing) of slot [i]. *)
Definition slot_id (nMax nCam i k : nat) : nat :=
  match k with
  | O => getId nMax nCam _dep i
  | S k' => (getId nMax nCam _nor i + k')%nat
  end.

(** ** Classification of a float through its specification *)

Definition SF_is_finite (x : spec_float) : bool :=
  match x with
  | S754_zero _ | S754_finite _ _ _ => true
  | _ => false
  end.

(** A bearing [v] is of unit length and points along [n]: squared norm
    within [1e-12] of one, vanishing cross product, positive dot product. *)
Definition V3D_dot (a b : V3D) : float :=
  let '(ax, ay, az) := a in
  let '(bx, by_, bz) := b in
  ax * bx + ay * by_ + az * bz.

Definition V3D_cross (a b : V3D) : V3D :=
  let '(ax, ay, az) := a in
  let '(bx, by_, bz) := b in
  (ay * bz - az * by_, az * bx - ax * bz, ax * by_ - ay * bx).

Definition V3D_unit_parallel (v n : V3D) : bool :=
  let '(cx, cy, cz) := V3D_cross v n in
  (abs (V3D_dot v v - 1) <? 1e-12) &&
  (cx =? 0) && (cy =? 0) && (cz =? 0) &&
  (0 <? V3D_dot v n).

(** ** Reference instances of the external interfaces

    Small concrete implementations, used to run the model on examples. *)

Module Reference.

(** Quaternions [(w,x,y,z)] acting on vectors by
    [v + 2w (u x v) + 2 u x (u x v)], [u = (x,y,z)]. *)
Definition Quat : Type := float * float * float * float.

Definition Quat_scale (k : float) (v : V3D) : V3D :=
  let '(x, y, z) := v in (k * x, k * y, k * z).

Definition Quat_rotate (q : Quat) (v : V3D) : V3D :=
  let '(w, x, y, z) := q in
  let u : V3D := (x, y, z) in
  let uv := V3D_cross u v in
  V3D_add (V3D_add v (Quat_scale (2 * w) uv)) (Quat_scale 2 (V3D_cross u uv)).

Definition Quat_inverted (q : Quat) : Quat :=
  let '(w, x, y, z) := q in (w, - x, - y, - z).

Definition Quat_mul (a b : Quat) : Quat :=
  let '(aw, ax, ay, az) := a in
  let '(bw, bx, by_, bz) := b in
  (aw * bw - ax * bx - ay * by_ - az * bz,
   aw * bx + ax * bw + ay * bz - az * by_,
   aw * by_ - ax * bz + ay * bw + az * bx,
   aw * bz + ax * by_ - ay * bx + az * bw).

Definition Quat_setFromVectors (v1 v2 : V3D) : Quat :=
  let '(cx, cy, cz) := V3D_cross v1 v2 in
  let w := V3D_norm v1 * V3D_norm v2 + V3D_dot v1 v2 in
  let n := sqrt (w * w + cx * cx + cy * cy + cz * cz) in
  (w / n, cx / n, cy / n, cz / n).

#[export] Instance Kindr_Quat : Kindr Quat := {|
  QPD_setIdentity := (1, 0, 0, 0);
  QPD_setFromVectors := Quat_setFromVectors;
  QPD_inverted := Quat_inverted;
  QPD_rotate := Quat_rotate;
  QPD_mul := Quat_mul
|}.

(** A bearing stored as its unit vector. *)
Definition Bearing_setFromVector (v : V3D) : V3D :=
  let d := V3D_norm v in
  if 1e-6 <? d then
    let '(x, y, z) := v in (x / d, y / d, z / d)
  else (0, 0, 1).

#[export] Instance LWF_Bearing : LWF_NormalVector V3D := {|
  NVE_setIdentity := (0, 0, 1);
  NVE_setFromVector := Bearing_setFromVector;
  NVE_getVec := fun v => v
|}.

(** Truncated power series for [exp]; [pow] for the two exponents the
    header uses. *)
Fixpoint exp_series (fuel : nat) (x k term acc : float) : float :=
  match fuel with
  | O => acc
  | S fuel' =>
      let term' := term * x / k in
      exp_series fuel' x (k + 1) term' (acc + term')
  end.

Definition ref_exp (x : float) : float := exp_series 40 x 1 1 1.

#[export] Instance Libm_series : Libm := {|
  c_exp := ref_exp;
  c_sinh := fun x => (ref_exp x - ref_exp (- x)) / 2;
  c_cosh := fun x => (ref_exp x + ref_exp (- x)) / 2;
  c_pow := fun x y =>
    if y =? 2 then x * x else if y =? 1.5 then x * sqrt x else nan
|}.

Definition RState : Type := @State Quat V3D.
Definition RFilterState : Type := @FilterState Quat V3D unit unit.

(** Identity matrix of dimension [n]. *)
Definition Matrix_Identity (n : nat) : Matrix :=
  imap (fun r _ => imap (fun c _ => if bool_decide (r = c) then 1 else 0)
                     (replicate n tt)) (replicate n tt).

(** A filter state with zeroed blocks, identity rotations and identity
    covariance, as a base for the constructors. *)
Definition base_State (nMax nCam : nat) : RState :=
  mkState V3D_Zero V3D_Zero V3D_Zero V3D_Zero QPD_setIdentity
    (replicate nCam V3D_Zero) (replicate nCam QPD_setIdentity)
    (replicate nMax 0) (replicate nMax NVE_setIdentity)
    (StateAuxiliary_ctor nMax nCam).1.

Definition base_FilterState (nMax nCam : nat) : RFilterState :=
  mkFilterState (base_State nMax nCam) (Matrix_Identity (D_ nMax nCam))
    false tt (replicate nCam tt) tt 0 0%Z.

Definition fresh_FilterState (nMax nCam : nat) : RFilterState :=
  (FilterState_ctor nMax nCam (base_FilterState nMax nCam)).1.

Definition example_initCov : M3D :=
  ((0.1, 0.5, 0.6), (0.7, 0.01, 0.8), (0.9, 0.11, 0.01)).

End Reference.

(** ** Further definitions: enum values, prediction layouts, symmetry *)

(** The integer value of an enumerator of [DepthMap::DepthType]. *)
Definition DepthType_int (t : DepthMap.DepthType) : Z :=
  match t with
  | DepthMap.REGULAR => 0
  | DepthMap.INVERSE => 1
  | DepthMap.LOG => 2
  | DepthMap.HYPERBOLIC => 3
  end%Z.

(** [class PredictionMeas]: acceleration and angular velocity. *)
Module PredictionMeas.
Definition _acc : nat := 0.
Definition _gyr : nat := S _acc.
Definition layout : Layout := [ (VectorElement 3, 1%nat); (VectorElement 3, 1%nat) ].
Record t := mk { acc : V3D; gyr : V3D }.
End PredictionMeas.

(** [class PredictionNoise<STATE>], with [STATE::nMax_] and [STATE::nCam_]. *)
Module PredictionNoise.
Definition _pos : nat := 0.
Definition _vel : nat := S _pos.
Definition _acb : nat := S _vel.
Definition _gyb : nat := S _acb.
Definition _att : nat := S _gyb.
Definition _vep : nat := S _att.
Definition _vea : nat := S _vep.
Definition _dep : nat := S _vea.
Definition _nor : nat := S _dep.
Definition layout (nMax nCam : nat) : Layout :=
  [ (VectorElement 3, 1%nat); (VectorElement 3, 1%nat);
    (VectorElement 3, 1%nat); (VectorElement 3, 1%nat);
    (VectorElement 3, 1%nat);
    (VectorElement 3, nCam);
    (VectorElement 3, nCam);
    (ScalarElement, nMax);
    (VectorElement 2, nMax) ].
End PredictionNoise.

Definition Matrix_symmetric (M : Matrix) : Prop :=
  forall r c, coeff M r c = coeff M c r.

Definition M3D_symmetric (m : M3D) : Prop :=
  forall u v, (u < 3)%nat -> (v < 3)%nat -> M3D_at m u v = M3D_at m v u.

(** * Facts about binary64 arithmetic *)

Section SpecFloatFacts.
#[local] Open Scope Z_scope.

Lemma digits2_pos_size p : digits2_pos p = Pos.size p.
Proof. induction p; simpl; congruence. Qed.

Lemma Zdigits2_le m K : 0 <= m < 2 ^ K -> 0 <= K -> Zdigits2 m <= K.
Proof.
  intros [Hm HK] HK0. destruct m as [|p|p]; simpl; try lia.
  rewrite digits2_pos_size.
  destruct (Z_le_gt_dec (Z.pos (Pos.size p)) K) as [|Hgt]; [done|].
  exfalso.
  pose proof (Pos.size_le p) as Hs.
  assert (2 ^ Z.pos (Pos.size p) <= 2 * Z.pos p) as H2.
  { apply Pos2Z.pos_le_pos in Hs.
    rewrite Pos2Z.inj_pow, Pos2Z.inj_xO in Hs. exact Hs. }
  assert (2 ^ (K + 1) <= 2 ^ Z.pos (Pos.size p)) by (apply Z.pow_le_mono_r; lia).
  rewrite Z.pow_add_r in * by lia. lia.
Qed.

(** Shifting a non-negative mantissa right keeps it between 0 and itself. *)
Lemma shr_1_bounds mrs : 0 <= shr_m mrs -> 0 <= shr_m (shr_1 mrs) <= shr_m mrs.
Proof.
  destruct mrs as [m r s]; simpl. intros Hm.
  destruct m as [|[p|p|]|p]; simpl; lia.
Qed.

Lemma iter_pos_shr_1_bounds n : forall mrs,
  0 <= shr_m mrs ->
  0 <= shr_m (SpecFloat.iter_pos shr_1 n mrs) <= shr_m mrs.
Proof.
  induction n as [n IH|n IH|]; intros mrs Hm; simpl.
  - pose proof (shr_1_bounds mrs Hm) as H1.
    pose proof (IH _ (proj1 H1)) as H2.
    pose proof (IH _ (proj1 H2)). lia.
  - pose proof (IH _ Hm) as H2.
    pose proof (IH _ (proj1 H2)). lia.
  - by apply shr_1_bounds.
Qed.

Lemma shr_fexp_bounds m e l K :
  0 <= m < 2 ^ K -> 0 <= K ->
  0 <= shr_m (shr_fexp prec emax m e l).1 <= m /\
  (shr_fexp prec emax m e l).2 <= Z.max e (-1074) + K.
Proof.
  intros Hm HK. pose proof (Zdigits2_le m K Hm HK) as Hd.
  unfold shr_fexp, shr, fexp, SpecFloat.emin, prec, emax.
  assert (shr_m (shr_record_of_loc m l) = m) as Hrec
    by (by destruct l as [|[]]).
  destruct (Z.max (Zdigits2 m + e - 53) (3 - 1024 - 53) - e) as [|n|n] eqn:Hn;
    simpl; rewrite ?Hrec; try lia.
  pose proof (iter_pos_shr_1_bounds n (shr_record_of_loc m l)) as Hi.
  rewrite Hrec in Hi. lia.
Qed.

Lemma round_nearest_even_bounds m l :
  m <= round_nearest_even m l <= m + 1.
Proof. destruct l as [|[]]; simpl; try lia. destruct (Z.even m); lia. Qed.

(** Rounding a mantissa below [2^K] at a small enough exponent neither
    overflows nor produces a NaN. *)
Lemma binary_round_aux_finite sx mx ex lx K :
  0 <= mx < 2 ^ K -> 0 <= K ->
  Z.max ex (-1074) + 2 * K + 1 <= 971 ->
  SF_is_finite (binary_round_aux prec emax sx mx ex lx) = true.
Proof.
  intros Hm HK He. unfold binary_round_aux.
  pose proof (shr_fexp_bounds mx ex lx K Hm HK) as [H1 H1e].
  destruct (shr_fexp prec emax mx ex lx) as [mrs1 e1]; simpl in *.
  pose proof (round_nearest_even_bounds (shr_m mrs1) (loc_of_shr_record mrs1)) as Hr.
  set (m2 := round_nearest_even _ _) in *.
  assert (0 <= m2 < 2 ^ (K + 1)) as Hm2.
  { rewrite Z.pow_add_r by lia. lia. }
  pose proof (shr_fexp_bounds m2 e1 loc_Exact (K + 1) Hm2 ltac:(lia)) as [H2 H2e].
  destruct (shr_fexp prec emax m2 e1 loc_Exact) as [mrs2 e2]; simpl in *.
  destruct (shr_m mrs2) as [|p|p]; try done; [|lia].
  unfold emax, prec.
  destruct (Z.leb_spec e2 (1024 - 53)); [done|lia].
Qed.

Lemma SFcompare_refl_finite x :
  SF_is_finite x = true -> SFcompare x x = Some Eq.
Proof.
  destruct x as [s|s| |s m e]; try done; simpl; intros _.
  rewrite Z.compare_refl, Pos.compare_cont_refl. by destruct s.
Qed.

Lemma is_finite_SF x : SF_is_finite (Prim2SF x) = true -> is_finite x = true.
Proof.
  intros Hx. unfold is_finite, is_nan, is_infinity.
  rewrite !FloatAxioms.eqb_spec, FloatAxioms.abs_spec. unfold SFeqb.
  rewrite (SFcompare_refl_finite _ Hx).
  by destruct (Prim2SF x) as [s|s| |s m e].
Qed.

Lemma Prim2SF_one : Prim2SF 1 = S754_finite false 4503599627370496 (-52).
Proof. reflexivity. Qed.

Lemma Prim2SF_1e_6 : Prim2SF 1e-6 = S754_finite false 4722366482869645 (-72).
Proof. reflexivity. Qed.

(** [1/y] does not overflow when the exponent of [y] is at least -72,
    that is, when [|y| >= 2^-20]. *)
Lemma SFdiv_one_finite s m e :
  valid_binary (S754_finite s m e) = true -> -72 <= e ->
  SF_is_finite (SF64div (Prim2SF 1) (S754_finite s m e)) = true.
Proof.
  intros Hv He. rewrite Prim2SF_one. unfold SF64div, SFdiv, SFdiv_core_binary.
  simpl in Hv. apply andb_prop in Hv as [Hc _].
  unfold canonical_mantissa, fexp, SpecFloat.emin, prec, emax in Hc.
  apply Z.eqb_eq in Hc.
  set (d2 := Zdigits2 (Z.pos m)).
  assert (0 < d2 <= 53) as Hd2 by (unfold d2; simpl; lia).
  set (e' := Z.min _ _).
  assert (-52 - e - 53 <= e' <= -52 - e) as He'.
  { unfold e', fexp, SpecFloat.emin, prec, emax. simpl Zdigits2. lia. }
  set (s' := -52 - e - e').
  set (m' := match s' with Z.pos _ => _ | _ => _ end).
  assert (0 <= m' < 2 ^ 106) as Hm'.
  { unfold m'. destruct s' as [|n|n] eqn:Hs'; try lia.
    rewrite Z.shiftl_mul_pow2 by lia.
    assert (0 < 2 ^ Z.pos n <= 2 ^ 53) by
      (split; [apply Z.pow_pos_nonneg; lia | apply Z.pow_le_mono_r; lia]).
    change (2 ^ 53) with 9007199254740992 in *.
    change (2 ^ 106) with 81129638414606681695789005144064. lia. }
  pose proof (Z_div_mod m' (Z.pos m) ltac:(lia)) as Hdm.
  destruct (Z.div_eucl m' (Z.pos m)) as [q r].
  apply (binary_round_aux_finite _ _ _ _ 106); [nia|lia|lia].
Qed.

(** A float that is not below [1e-6] in magnitude is a NaN, an infinity,
    or finite with exponent at least -72. *)
Lemma abs_ge_1e_6_inv p :
  (abs p <? 1e-6)%float = false ->
  match Prim2SF p with
  | S754_zero _ => False
  | S754_finite _ _ e => -72 <= e
  | _ => True
  end.
Proof.
  rewrite FloatAxioms.ltb_spec, FloatAxioms.abs_spec, Prim2SF_1e_6.
  destruct (Prim2SF p) as [s|s| |s m e]; simpl; try done.
  unfold SFltb. cbv beta iota delta [SFcompare].
  destruct (Z.compare_spec e (-72)); try discriminate; lia.
Qed.

Lemma div_one_finite p :
  is_nan p = false -> (abs p <? 1e-6)%float = false ->
  is_finite (1 / p) = true.
Proof.
  intros Hnan Hge. apply is_finite_SF. rewrite FloatAxioms.div_spec.
  pose proof (abs_ge_1e_6_inv p Hge) as He.
  pose proof (Prim2SF_valid p) as Hv.
  unfold is_nan in Hnan. rewrite FloatAxioms.eqb_spec in Hnan.
  destruct (Prim2SF p) as [s|s| |s m e]; try done.
  by apply SFdiv_one_finite.
Qed.

Lemma abs_ge_1e_6_nonzero p :
  (abs p <? 1e-6)%float = false -> (p =? 0)%float = false.
Proof.
  intros Hge. pose proof (abs_ge_1e_6_inv p Hge) as He.
  rewrite FloatAxioms.eqb_spec.
  change (Prim2SF 0) with (S754_zero false).
  destruct (Prim2SF p) as [s|s| |s m e]; try done; by destruct s.
Qed.
End SpecFloatFacts.

(** * DepthMap *)

Section DepthMapFacts.
Context {libm : Libm}.
Import DepthMap.

Lemma map_INVERSE dm p : type_ dm = INVERSE -> map dm p = mapInverse p.
Proof. unfold map. by intros ->. Qed.

Lemma mapInverse_p_temp_guard p :
  (abs (mapInverse_p_temp p) <? 1e-6) = false.
Proof.
  unfold mapInverse_p_temp.
  destruct (abs p <? 1e-6) eqn:Hlt; [|done].
  by destruct (0 <=? p).
Qed.

(** C7: under the inverse encoding a parameter of magnitude below 1e-6 is
    mapped exactly as the boundary value of its sign, 1e-6 for [p >= 0] and
    -1e-6 otherwise; the divisor [p_temp] of [d = 1/p_temp] is never below
    1e-6 in magnitude, in particular never zero; and the depth is finite
    for every parameter that is a number. *)
Theorem mapInverse_clamped (p : float) :
  ((abs p <? 1e-6) = true ->
     let p' := if 0 <=? p then 1e-6 else -1e-6 in
     mapInverse p = mapInverse p' /\
     forall dm, type_ dm = INVERSE -> map dm p = map dm p') /\
  (out_d (mapInverse p) = 1 / mapInverse_p_temp p /\
   (abs (mapInverse_p_temp p) <? 1e-6) = false /\
   (mapInverse_p_temp p =? 0) = false) /\
  (is_nan p = false ->
     is_finite (out_d (mapInverse p)) = true /\
     forall dm, type_ dm = INVERSE -> is_finite (out_d (map dm p)) = true).
Proof.
  split; [|split].
  - intros Hlt p'.
    assert (mapInverse p = mapInverse p') as Heq.
    { unfold mapInverse, mapInverse_p_temp. rewrite Hlt.
      subst p'. by destruct (0 <=? p). }
    split; [done|]. intros dm Hdm. by rewrite !map_INVERSE.
  - split; [done|]. split; [apply mapInverse_p_temp_guard|].
    apply abs_ge_1e_6_nonzero, mapInverse_p_temp_guard.
  - intros Hnan.
    assert (is_finite (out_d (mapInverse p)) = true) as Hfin.
    { change (out_d (mapInverse p)) with (1 / mapInverse_p_temp p).
      unfold mapInverse_p_temp.
      destruct (abs p <? 1e-6) eqn:Hlt; [by destruct (0 <=? p)|].
      by apply div_one_finite. }
    split; [done|]. intros dm Hdm. by rewrite map_INVERSE.
Qed.

End DepthMapFacts.

Lemma mapInverse_clamped_witness :
  DepthMap.mapInverse 1e-9 = DepthMap.mapInverse 1e-6 /\
  is_finite (DepthMap.out_d (DepthMap.mapInverse 1e-9)) = true.
Proof.
  destruct (mapInverse_clamped (libm := Reference.Libm_series) 1e-9)
    as (Hclamp & _ & Hfin).
  split; [apply Hclamp; reflexivity | apply Hfin; reflexivity].
Defined.

(** * Matrices and blocks *)

Section MatrixFacts.
#[local] Open Scope nat_scope.

Lemma coeff_mat_imap f M r c :
  coeff (mat_imap f M) r c = f r c <$> coeff M r c.
Proof.
  unfold coeff, mat_imap. rewrite list_lookup_imap.
  destruct (M !! r) as [row|]; [|done].
  apply list_lookup_imap.
Qed.

Lemma mat_imap_compose f g M :
  mat_imap f (mat_imap g M) = mat_imap (fun r c x => f r c (g r c x)) M.
Proof.
  unfold mat_imap. apply list_eq; intros r.
  rewrite !list_lookup_imap.
  destruct (M !! r) as [row|]; [|done].
  cbn [fmap option_fmap option_map]. f_equal. apply list_eq; intros c.
  rewrite !list_lookup_imap. by destruct (row !! c).
Qed.

Lemma Matrix_wf_lookup R C M r row :
  Matrix_wf R C M -> M !! r = Some row -> r < R /\ length row = C.
Proof.
  intros [Hlen Hrows] Hr. split.
  - rewrite <- Hlen. by eapply lookup_lt_Some.
  - by eapply (proj1 (Forall_lookup _ _) Hrows).
Qed.

Lemma mat_imap_ext R C f g M :
  Matrix_wf R C M ->
  (forall r c x, r < R -> c < C -> f r c x = g r c x) ->
  mat_imap f M = mat_imap g M.
Proof.
  intros Hwf Hfg. unfold mat_imap. apply imap_ext; intros r row Hr.
  destruct (Matrix_wf_lookup _ _ _ _ _ Hwf Hr) as [HrR Hrow].
  apply imap_ext; intros c x Hc. apply Hfg; [done|].
  rewrite <- Hrow. by eapply lookup_lt_Some.
Qed.

Lemma Matrix_wf_mat_imap R C f M :
  Matrix_wf R C M -> Matrix_wf R C (mat_imap f M).
Proof.
  intros [Hlen Hrows]. split; unfold mat_imap.
  - by rewrite length_imap.
  - apply Forall_lookup; intros r row. rewrite list_lookup_imap.
    destruct (M !! r) as [row0|] eqn:Hr; simpl; [|done].
    intros [= <-]. rewrite length_imap.
    by eapply (proj1 (Forall_lookup _ _) Hrows).
Qed.

Lemma coeff_is_Some R C M r c :
  Matrix_wf R C M -> r < R -> c < C -> is_Some (coeff M r c).
Proof.
  intros [Hlen Hrows] Hr Hc. unfold coeff.
  destruct (lookup_lt_is_Some_2 M r ltac:(lia)) as [row Hrow].
  rewrite Hrow; simpl. apply lookup_lt_is_Some_2.
  rewrite (proj1 (Forall_lookup _ _) Hrows _ _ Hrow). done.
Qed.

Lemma coeff_lt R C M r c x :
  Matrix_wf R C M -> coeff M r c = Some x -> r < R /\ c < C.
Proof.
  intros Hwf. unfold coeff.
  destruct (M !! r) as [row|] eqn:Hr; simpl; [|done].
  intros Hc. destruct (Matrix_wf_lookup _ _ _ _ _ Hwf Hr) as [? Hrow].
  split; [done|]. rewrite <- Hrow. by eapply lookup_lt_Some.
Qed.

End MatrixFacts.

Ltac decide_bools :=
  repeat match goal with
  | |- context [bool_decide ?P] =>
      first [ rewrite (bool_decide_eq_true_2 P) by lia
            | rewrite (bool_decide_eq_false_2 P) by lia ]
  end.

Ltac slot_cases a b r :=
  destruct (decide (r = a)) as [->|?];
  [| destruct (decide (r = b)) as [->|?];
     [| destruct (decide (r = S b)) as [->|?] ] ].

Section SlotWrites.
#[local] Open Scope nat_scope.
Variables (D a b : nat).
Hypothesis (Hab : a < b) (HbD : b + 1 < D).

(** The eight block writes of [initializeFeatureState], entry by entry. *)
Lemma initializeFeatureState_writes initCov r c x :
  r < D -> c < D ->
  block_write 2 2 b b (M3D_block initCov 1 1) r c
    (block_write 2 1 b a (M3D_block initCov 1 0) r c
      (block_write 1 2 a b (M3D_block initCov 0 1) r c
        (block_write 1 1 a a (M3D_block initCov 0 0) r c
          (block_write 2 D b 0 (fun _ _ => 0%float) r c
            (block_write D 2 0 b (fun _ _ => 0%float) r c
              (block_write 1 D a 0 (fun _ _ => 0%float) r c
                (block_write D 1 0 a (fun _ _ => 0%float) r c x)))))))
  = slot_write a b (M3D_at initCov) r c x.
Proof.
  intros Hr Hc.
  unfold block_write, in_block, slot_write, in_slot, slot_pos, M3D_block.
  slot_cases a b r; slot_cases a b c; decide_bools; simpl;
    try reflexivity; f_equal; lia.
Qed.

(** The six block writes of [removeFeature], entry by entry. *)
Lemma removeFeature_writes r c x :
  r < D -> c < D ->
  block_write 2 2 b b Identity_at r c
    (block_write 1 1 a a Identity_at r c
      (block_write 2 D b 0 (fun _ _ => 0%float) r c
        (block_write D 2 0 b (fun _ _ => 0%float) r c
          (block_write 1 D a 0 (fun _ _ => 0%float) r c
            (block_write D 1 0 a (fun _ _ => 0%float) r c x)))))
  = slot_write a b Identity_at r c x.
Proof.
  intros Hr Hc.
  unfold block_write, in_block, slot_write, in_slot, slot_pos, Identity_at.
  slot_cases a b r; slot_cases a b c; decide_bools; simpl;
    decide_bools; reflexivity.
Qed.

End SlotWrites.

(** * Entries written by a slot update *)

Section SlotWriteFacts.
#[local] Open Scope nat_scope.
Variables (nMax nCam i : nat).

Lemma getId_dep : getId nMax nCam _dep i = 15 + 6 * nCam + i.
Proof.
  unfold getId, layout_getId, State_layout; simpl; unfold element_D; simpl. lia.
Qed.

Lemma getId_nor : getId nMax nCam _nor i = 15 + 6 * nCam + nMax + 2 * i.
Proof.
  unfold getId, layout_getId, State_layout; simpl; unfold element_D; simpl. lia.
Qed.

Lemma D_eq : D_ nMax nCam = 15 + 6 * nCam + 3 * nMax.
Proof.
  unfold D_, layout_D, State_layout; simpl; unfold element_D; simpl. lia.
Qed.

Abbreviation a := (getId nMax nCam _dep i).
Abbreviation b := (getId nMax nCam _nor i).
Abbreviation sid := (slot_id nMax nCam i).

Lemma slot_write_other self r c x :
  (forall k, k < 3 -> r <> sid k) ->
  (forall k, k < 3 -> c <> sid k) ->
  slot_write a b self r c x = x.
Proof.
  intros Hr Hc. unfold slot_write, in_slot.
  pose proof (Hr 0 ltac:(lia)). pose proof (Hr 1 ltac:(lia)).
  pose proof (Hr 2 ltac:(lia)). pose proof (Hc 0 ltac:(lia)).
  pose proof (Hc 1 ltac:(lia)). pose proof (Hc 2 ltac:(lia)).
  unfold slot_id in *. decide_bools. done.
Qed.

(** A later slot update hides an earlier one of the same slot. *)
Lemma slot_write_slot_write self1 self2 r c x :
  slot_write a b self1 r c (slot_write a b self2 r c x) = slot_write a b self1 r c x.
Proof.
  unfold slot_write. by destruct (in_slot a b r), (in_slot a b c).
Qed.

Hypothesis (Hi : i < nMax).

Lemma getId_dep_lt_nor : a < b /\ b + 1 < D_ nMax nCam.
Proof. rewrite getId_dep, getId_nor, D_eq. lia. Qed.

Lemma slot_id_lt k : k < 3 -> sid k < D_ nMax nCam.
Proof.
  intros Hk. pose proof getId_dep_lt_nor. unfold slot_id.
  destruct k as [|k]; lia.
Qed.

Lemma slot_write_self self u v x :
  u < 3 -> v < 3 -> slot_write a b self (sid u) (sid v) x = self u v.
Proof.
  intros Hu Hv. unfold slot_write, in_slot, slot_pos, slot_id.
  pose proof getId_dep_lt_nor as [Hab _].
  destruct u as [|[|[|u]]]; try lia; destruct v as [|[|[|v]]]; try lia;
    decide_bools; simpl; f_equal; lia.
Qed.

Lemma slot_write_cross self k j x :
  k < 3 -> (forall k', k' < 3 -> j <> sid k') ->
  slot_write a b self (sid k) j x = 0%float /\
  slot_write a b self j (sid k) x = 0%float.
Proof.
  intros Hk Hj. unfold slot_write, in_slot, slot_pos.
  pose proof (Hj 0 ltac:(lia)) as H0. pose proof (Hj 1 ltac:(lia)) as H1.
  pose proof (Hj 2 ltac:(lia)) as H2. unfold slot_id in *.
  pose proof getId_dep_lt_nor as [Hab _].
  destruct k as [|[|[|k]]]; try lia; decide_bools; done.
Qed.

End SlotWriteFacts.

(** * FilterState: feature initialisation and removal *)

Section FilterFacts.
#[local] Open Scope nat_scope.
Context {QPD NVE : Type} {kindr : Kindr QPD} {lwf : LWF_NormalVector NVE}
  {libm : Libm} {MultilevelPatchSet cvMat : Type}.
Variables (nMax nCam : nat).

Abbreviation FS := (@FilterState QPD NVE MultilevelPatchSet cvMat).
Abbreviation sid i := (slot_id nMax nCam i).

Lemma cov_initializeFeatureState (fs : FS) i n d initCov :
  FilterState_wf nMax nCam fs -> i < nMax ->
  cov_ (initializeFeatureState nMax nCam i n d initCov fs) =
  mat_imap (slot_write (getId nMax nCam _dep i) (getId nMax nCam _nor i)
              (M3D_at initCov)) (cov_ fs).
Proof.
  intros (_ & Hcov & _) Hi. unfold initializeFeatureState; simpl.
  unfold block_setZero, block_assign. rewrite !mat_imap_compose.
  destruct (getId_dep_lt_nor nMax nCam i Hi) as [Hab HbD].
  eapply mat_imap_ext; [exact Hcov|]. intros r c x Hr Hc.
  by apply initializeFeatureState_writes.
Qed.

Lemma cov_removeFeature (fs : FS) i :
  FilterState_wf nMax nCam fs -> i < nMax ->
  cov_ (removeFeature nMax nCam i fs) =
  mat_imap (slot_write (getId nMax nCam _dep i) (getId nMax nCam _nor i)
              Identity_at) (cov_ fs).
Proof.
  intros (_ & Hcov & _) Hi. unfold removeFeature; simpl.
  unfold block_setZero, block_setIdentity, block_assign.
  rewrite !mat_imap_compose.
  destruct (getId_dep_lt_nor nMax nCam i Hi) as [Hab HbD].
  eapply mat_imap_ext; [exact Hcov|]. intros r c x Hr Hc.
  by apply removeFeature_writes.
Qed.

Lemma initializeFeatureState_wf (fs : FS) i n d initCov :
  FilterState_wf nMax nCam fs ->
  FilterState_wf nMax nCam (initializeFeatureState nMax nCam i n d initCov fs).
Proof.
  intros ((Hvep & Hvea & Hdep & Hnor & Haux) & Hcov & Himg).
  unfold initializeFeatureState, FilterState_wf, State_wf; simpl.
  rewrite !length_insert. split_and!; try done.
  unfold block_setZero, block_assign. by repeat apply Matrix_wf_mat_imap.
Qed.

Lemma removeFeature_wf (fs : FS) i :
  FilterState_wf nMax nCam fs ->
  FilterState_wf nMax nCam (removeFeature nMax nCam i fs).
Proof.
  intros ((Hvep & Hvea & Hdep & Hnor & Haux) & Hcov & Himg).
  unfold removeFeature, FilterState_wf, State_wf; simpl.
  rewrite !length_insert. split_and!; try done.
  unfold block_setZero, block_setIdentity, block_assign.
  by repeat apply Matrix_wf_mat_imap.
Qed.

(** Reading an entry after a slot update. *)
Lemma coeff_slot_write (M : Matrix) i self r c :
  Matrix_wf (D_ nMax nCam) (D_ nMax nCam) M ->
  r < D_ nMax nCam -> c < D_ nMax nCam ->
  exists x, coeff M r c = Some x /\
    coeff (mat_imap (slot_write (getId nMax nCam _dep i)
                       (getId nMax nCam _nor i) self) M) r c =
    Some (slot_write (getId nMax nCam _dep i) (getId nMax nCam _nor i) self r c x).
Proof.
  intros Hwf Hr Hc. destruct (coeff_is_Some _ _ _ _ _ Hwf Hr Hc) as [x Hx].
  exists x. split; [done|]. by rewrite coeff_mat_imap, Hx.
Qed.

(** The entries of the covariance matrix after a slot update: the slot's own
    block, its cross-covariances, and everything else. *)
Lemma slot_update_entries (M M' : Matrix) i self :
  Matrix_wf (D_ nMax nCam) (D_ nMax nCam) M -> i < nMax ->
  M' = mat_imap (slot_write (getId nMax nCam _dep i)
                   (getId nMax nCam _nor i) self) M ->
  (forall u v, u < 3 -> v < 3 -> coeff M' (sid i u) (sid i v) = Some (self u v)) /\
  (forall k j, k < 3 -> j < D_ nMax nCam ->
     (forall k', k' < 3 -> j <> sid i k') ->
     coeff M' (sid i k) j = Some 0%float /\ coeff M' j (sid i k) = Some 0%float) /\
  (forall r c, (forall k, k < 3 -> r <> sid i k) ->
     (forall k, k < 3 -> c <> sid i k) -> coeff M' r c = coeff M r c).
Proof.
  intros Hwf Hi ->. split; [|split].
  - intros u v Hu Hv.
    destruct (coeff_slot_write M i self (sid i u) (sid i v) Hwf) as (x & _ & ->);
      try by apply slot_id_lt.
    by rewrite slot_write_self.
  - intros k j Hk Hj Hne.
    pose proof (slot_id_lt nMax nCam i Hi k Hk) as Hlt.
    destruct (coeff_slot_write M i self (sid i k) j Hwf Hlt Hj) as (x & _ & ->).
    destruct (coeff_slot_write M i self j (sid i k) Hwf Hj Hlt) as (y & _ & ->).
    destruct (slot_write_cross nMax nCam i Hi self k j x Hk Hne) as [-> _].
    destruct (slot_write_cross nMax nCam i Hi self k j y Hk Hne) as [_ ->].
    done.
  - intros r c Hr Hc. rewrite coeff_mat_imap.
    destruct (coeff M r c) as [x|]; [|done]. simpl.
    by rewrite slot_write_other.
Qed.

Lemma initializeFeatureState_lookup (fs : FS) i n d initCov :
  FilterState_wf nMax nCam fs -> i < nMax ->
  let s' := state_ (initializeFeatureState nMax nCam i n d initCov fs) in
  st_dep s' !! i = Some d /\ st_nor s' !! i = Some (NVE_setFromVector n).
Proof.
  intros ((_ & _ & Hdep & Hnor & _) & _) Hi. simpl.
  split; apply list_lookup_insert_eq; lia.
Qed.

(** C2: [initializeFeatureState(i,n,d,initCov)] stores [d] as the depth
    parameter of slot [i] and the bearing made from [n] (normalised inside
    [setFromVector]) as its bearing; in the covariance matrix the slot's 3x3
    block, in the order depth, bearing 1, bearing 2, is [initCov], every
    other entry of the slot's three rows and columns is zero, and every
    entry off those rows and columns is unchanged; no other state block and
    nothing else of the filter state changes. *)
Theorem initializeFeatureState_spec (fs : FS) i n d initCov :
  FilterState_wf nMax nCam fs -> i < nMax ->
  let fs' := initializeFeatureState nMax nCam i n d initCov fs in
  let s := state_ fs in
  let s' := state_ fs' in
  (st_dep s' !! i = Some d /\
   st_nor s' !! i = Some (NVE_setFromVector n) /\
   get_CfP s' i = Some (NVE_getVec (NVE_setFromVector n))) /\
  (forall k j, k < 3 -> j < D_ nMax nCam ->
     (forall k', k' < 3 -> j <> sid i k') ->
     coeff (cov_ fs') (sid i k) j = Some 0%float /\
     coeff (cov_ fs') j (sid i k) = Some 0%float) /\
  (forall u v, u < 3 -> v < 3 ->
     coeff (cov_ fs') (sid i u) (sid i v) = Some (M3D_at initCov u v)) /\
  (forall r c, (forall k, k < 3 -> r <> sid i k) ->
     (forall k, k < 3 -> c <> sid i k) ->
     coeff (cov_ fs') r c = coeff (cov_ fs) r c) /\
  (st_pos s' = st_pos s /\ st_vel s' = st_vel s /\ st_acb s' = st_acb s /\
   st_gyb s' = st_gyb s /\ st_att s' = st_att s /\ st_vep s' = st_vep s /\
   st_vea s' = st_vea s /\ st_aux s' = st_aux s /\
   (forall j, j <> i -> st_dep s' !! j = st_dep s !! j /\
                        st_nor s' !! j = st_nor s !! j)) /\
  (usePredictionMerge_ fs' = usePredictionMerge_ fs /\ mlps_ fs' = mlps_ fs /\
   img_ fs' = img_ fs /\ patchDrawing_ fs' = patchDrawing_ fs /\
   imgTime_ fs' = imgTime_ fs /\ imageCounter_ fs' = imageCounter_ fs).
Proof.
  intros Hwf Hi fs' s s'.
  pose proof Hwf as ((Hvep & Hvea & Hdep & Hnor & Haux) & Hcov & Himg).
  destruct (slot_update_entries (cov_ fs) (cov_ fs') i (M3D_at initCov) Hcov Hi
              (cov_initializeFeatureState fs i n d initCov Hwf Hi))
    as (Hself & Hcross & Hother).
  destruct (initializeFeatureState_lookup fs i n d initCov Hwf Hi) as [Hd Hn].
  split; [|split; [|split; [|split; [|split]]]]; try done.
  - split; [done|split; [done|]].
    unfold get_CfP. subst s' fs'. by rewrite Hn.
  - repeat split; try done;
      subst s' fs'; simpl; by apply list_lookup_insert_ne.
Qed.

Lemma get_depth_lookup (s : @State QPD NVE) i p :
  st_dep s !! i = Some p ->
  get_depth s i = Some (DepthMap.out_d (DepthMap.map (depthMap_ (st_aux s)) p)).
Proof. intros Hp. unfold get_depth. by rewrite Hp. Qed.

Lemma Identity_at_S u v : Identity_at (S u) (S v) = Identity_at u v.
Proof. unfold Identity_at. repeat case_bool_decide; try done; lia. Qed.

(** C3: [removeFeature(i)] resets the depth parameter of slot [i] to 1.0 and
    its bearing to [setIdentity()]; it zeroes every covariance entry between
    the slot's three indices and the other state dimensions and leaves the
    identity in the slot's 1x1 depth block and 2x2 bearing block; afterwards
    [get_depth(i)] is finite and positive.  For the logarithmic and the
    hyperbolic encoding the depth is [exp(1)] and [sinh(1)], finite and
    positive as far as the math library's values at 1 are. *)
Theorem removeFeature_spec (fs : FS) i :
  FilterState_wf nMax nCam fs -> i < nMax ->
  (is_finite (c_exp 1) = true /\ (0 <? c_exp 1)%float = true) ->
  (is_finite (c_sinh 1) = true /\ (0 <? c_sinh 1)%float = true) ->
  let fs' := removeFeature nMax nCam i fs in
  let s' := state_ fs' in
  st_dep s' !! i = Some 1%float /\
  st_nor s' !! i = Some NVE_setIdentity /\
  (forall k j, k < 3 -> j < D_ nMax nCam ->
     (forall k', k' < 3 -> j <> sid i k') ->
     coeff (cov_ fs') (sid i k) j = Some 0%float /\
     coeff (cov_ fs') j (sid i k) = Some 0%float) /\
  coeff (cov_ fs') (getId nMax nCam _dep i) (getId nMax nCam _dep i) = Some 1%float /\
  (forall u v, u < 2 -> v < 2 ->
     coeff (cov_ fs') (getId nMax nCam _nor i + u) (getId nMax nCam _nor i + v)
     = Some (Identity_at u v)) /\
  (exists dpt, get_depth s' i = Some dpt /\
     is_finite dpt = true /\ (0 <? dpt)%float = true).
Proof.
  intros Hwf Hi Hexp Hsinh fs' s'.
  pose proof Hwf as ((Hvep & Hvea & Hdep & Hnor & Haux) & Hcov & Himg).
  destruct (slot_update_entries (cov_ fs) (cov_ fs') i Identity_at Hcov Hi
              (cov_removeFeature fs i Hwf Hi))
    as (Hself & Hcross & Hother).
  assert (st_dep s' !! i = Some 1%float) as Hd.
  { subst s' fs'; simpl. apply list_lookup_insert_eq. lia. }
  split_and!; try done.
  - subst s' fs'; simpl. apply list_lookup_insert_eq. lia.
  - apply (Hself 0 0); lia.
  - intros u v Hu Hv. rewrite <- Identity_at_S.
    apply (Hself (S u) (S v)); lia.
  - unfold get_depth. rewrite Hd. simpl.
    change (st_aux s') with (st_aux (state_ fs)).
    unfold DepthMap.map.
    destruct (DepthMap.type_ (depthMap_ (st_aux (state_ fs)))); eexists;
      (split; [reflexivity|]); try done.
Qed.

Lemma FilterState_ext (x y : FS) :
  state_ x = state_ y -> cov_ x = cov_ y ->
  usePredictionMerge_ x = usePredictionMerge_ y -> mlps_ x = mlps_ y ->
  img_ x = img_ y -> patchDrawing_ x = patchDrawing_ y ->
  imgTime_ x = imgTime_ y -> imageCounter_ x = imageCounter_ y ->
  x = y.
Proof. destruct x, y; simpl; intros; by subst. Qed.

(** C4: [removeFeature(i)] followed by [initializeFeatureState(i,b,d,C)]
    leaves the same state and covariance matrix as
    [initializeFeatureState(i,b,d,C)] alone. *)
Theorem removeFeature_initializeFeatureState (fs : FS) i n d initCov :
  FilterState_wf nMax nCam fs -> i < nMax ->
  initializeFeatureState nMax nCam i n d initCov (removeFeature nMax nCam i fs)
  = initializeFeatureState nMax nCam i n d initCov fs.
Proof.
  intros Hwf Hi. apply FilterState_ext; try done.
  - simpl. unfold set_st_nor, set_st_dep; simpl.
    by rewrite !list_insert_insert_eq.
  - rewrite !cov_initializeFeatureState, cov_removeFeature
      by auto using removeFeature_wf.
    rewrite mat_imap_compose.
    eapply mat_imap_ext; [apply Hwf|]. intros r c x _ _.
    apply slot_write_slot_write.
Qed.

(** C9: [removeFeature(i)] applied twice leaves the same state and
    covariance matrix as applied once. *)
Theorem removeFeature_idempotent (fs : FS) i :
  FilterState_wf nMax nCam fs -> i < nMax ->
  removeFeature nMax nCam i (removeFeature nMax nCam i fs)
  = removeFeature nMax nCam i fs.
Proof.
  intros Hwf Hi. apply FilterState_ext; try done.
  - simpl. unfold set_st_nor, set_st_dep; simpl.
    by rewrite !list_insert_insert_eq.
  - rewrite (cov_removeFeature (removeFeature nMax nCam i fs))
      by auto using removeFeature_wf.
    rewrite cov_removeFeature by done.
    rewrite mat_imap_compose.
    eapply mat_imap_ext; [apply Hwf|]. intros r c x _ _.
    apply slot_write_slot_write.
Qed.

(** C5: for every camera index below [nCam], [get_qCM] and [get_MrMC] read
    the state blocks [_vea] and [_vep] when [doVECalibration_] is true and
    the auxiliary arrays [qCM_] and [MrMC_] when it is false, whatever value
    the flag had before it was set; the flag is tested once, for all
    cameras. *)
Theorem get_qCM_get_MrMC_spec (s : @State QPD NVE) camID :
  State_wf nMax nCam s -> camID < nCam ->
  (doVECalibration_ (st_aux s) = true ->
     get_qCM s camID = st_vea s !! camID /\
     get_MrMC s camID = st_vep s !! camID) /\
  (doVECalibration_ (st_aux s) = false ->
     get_qCM s camID = qCM_ (st_aux s) !! camID /\
     get_MrMC s camID = MrMC_ (st_aux s) !! camID) /\
  (forall flag : bool,
     let s' := set_st_aux (set_doVECalibration flag (st_aux s)) s in
     get_qCM s' camID = (if flag then st_vea s else qCM_ (st_aux s)) !! camID /\
     get_MrMC s' camID = (if flag then st_vep s else MrMC_ (st_aux s)) !! camID) /\
  is_Some (get_qCM s camID) /\ is_Some (get_MrMC s camID).
Proof.
  intros (Hvep & Hvea & _ & _ & Haux) Hcam.
  destruct Haux as (_ & _ & _ & _ & _ & HqCM & HMrMC).
  unfold get_qCM, get_MrMC. split_and!.
  - by intros ->.
  - by intros ->.
  - intros flag. simpl. by destruct flag.
  - destruct (doVECalibration_ (st_aux s)); apply lookup_lt_is_Some_2; lia.
  - destruct (doVECalibration_ (st_aux s)); apply lookup_lt_is_Some_2; lia.
Qed.

(** [initWithImuPose] as written: the position block receives the rotated
    vector, the attitude block the inverse rotation. *)
Lemma initWithImuPose_blocks (fs : FS) WrWM qMW :
  let s' := state_ (initWithImuPose WrWM qMW fs) in
  st_pos s' = QPD_rotate qMW WrWM /\ st_att s' = QPD_inverted qMW.
Proof. done. Qed.

(** C10: the auxiliary state of a new [State] has [depthTypeInt_ = 1] and a
    depth map configured with it, that is, the inverse encoding, while a
    default-constructed [DepthMap] is regular; nothing is printed; and
    [get_depth] of a new state reads a stored parameter [p] as [1/p]
    (with [p] clamped away from zero). *)
Theorem StateAuxiliary_ctor_INVERSE :
  DepthMap.type_ DepthMap.ctor_default = DepthMap.REGULAR /\
  (exists aux : @StateAuxiliary QPD NVE,
     StateAuxiliary_ctor nMax nCam = (aux, []) /\
     depthTypeInt_ aux = 1%Z /\
     depthMap_ aux = DepthMap.mk DepthMap.INVERSE) /\
  (forall base : @State QPD NVE,
     let s := (State_ctor nMax nCam base).1 in
     DepthMap.type_ (depthMap_ (st_aux s)) = DepthMap.INVERSE /\
     forall i p, st_dep s !! i = Some p ->
       get_depth s i = Some (DepthMap.out_d (DepthMap.mapInverse p)) /\
       ((abs p <? 1e-6)%float = false -> get_depth s i = Some (1 / p)%float)) /\
  (forall base : FS,
     let fs := (FilterState_ctor nMax nCam base).1 in
     DepthMap.type_ (depthMap_ (st_aux (state_ fs))) = DepthMap.INVERSE).
Proof.
  split_and!; try done.
  - eexists. split; [reflexivity|]. done.
  - intros base s. split; [done|]. intros i p Hp.
    assert (get_depth s i = Some (DepthMap.out_d (DepthMap.mapInverse p)))
      as Hg by (unfold get_depth; rewrite Hp; reflexivity).
    split; [done|]. intros Hge. rewrite Hg. f_equal.
    change (DepthMap.out_d (DepthMap.mapInverse p))
      with (1 / DepthMap.mapInverse_p_temp p)%float.
    unfold DepthMap.mapInverse_p_temp. by rewrite Hge.
Qed.

End FilterFacts.

(** * DepthMap configuration *)

(** C6, as the code has it: a selector outside 0..3 is reported on standard
    output and the encoding becomes REGULAR. *)
Theorem setType_int_invalid (type : Z) (dm : DepthMap.t) :
  (type < 0 \/ 3 < type)%Z ->
  DepthMap.setType_int type dm =
  (DepthMap.mk DepthMap.REGULAR,
   ["Invalid type for depth parameterization: " +:+ pretty type +:+ endl]).
Proof.
  intros Hty. unfold DepthMap.setType_int.
  destruct type as [|[[q|q|]|[q|q|]|]|q]; try lia; reflexivity.
Qed.

Lemma setType_int_invalid_witness :
  DepthMap.setType_int 7 (DepthMap.ctor DepthMap.LOG) =
  (DepthMap.mk DepthMap.REGULAR,
   ["Invalid type for depth parameterization: " +:+ pretty 7%Z +:+ endl]).
Proof. apply setType_int_invalid. right. reflexivity. Defined.

(** C6, as stated, fails: the selector 4 is not rejected; the inverse
    encoding configured before the call is replaced by REGULAR. *)
Lemma setType_int_not_rejected :
  DepthMap.setType_int 4 (DepthMap.ctor DepthMap.INVERSE) =
  (DepthMap.mk DepthMap.REGULAR,
   ["Invalid type for depth parameterization: 4" +:+ endl]) /\
  (DepthMap.setType_int 4 (DepthMap.ctor DepthMap.INVERSE)).1
    <> DepthMap.ctor DepthMap.INVERSE.
Proof. split; [by vm_compute|]. by vm_compute. Qed.

(** * The scenario with one feature slot *)

Section Scenario.
Context {QPD NVE : Type} {kindr : Kindr QPD} {lwf : LWF_NormalVector NVE}
  {libm : Libm} {MultilevelPatchSet cvMat : Type}.
Variable (nCam : nat).

(** C1, as the code has it: in a filter state with [nMax = 1] whose depth
    map is the one the constructor configures (the inverse encoding), after
    [initializeFeatureState(0, (0,0,1), 2.0, diag(0.1,0.01,0.01))] the depth
    parameter is 2.0 and [get_depth(0)] is 0.5 = 1/2.0, not 2.0;
    [get_CfP(0)] is the vector LWF decodes from the bearing it made of
    (0,0,1), of unit norm and parallel to (0,0,1) when LWF's encoding of
    (0,0,1) is; after [removeFeature(0)], [get_depth(0)] is 1.0 and the
    depth self-covariance is 1.0. *)
Theorem scenario_one_slot (fs : @FilterState QPD NVE MultilevelPatchSet cvMat) :
  FilterState_wf 1 nCam fs ->
  depthMap_ (st_aux (state_ fs)) =
    depthMap_ (StateAuxiliary_ctor (QPD := QPD) (NVE := NVE) 1 nCam).1 ->
  V3D_unit_parallel (NVE_getVec (NVE_setFromVector (0, 0, 1))) (0, 0, 1) = true ->
  let initCov : M3D := ((0.1, 0, 0), (0, 0.01, 0), (0, 0, 0.01)) in
  let fs1 := initializeFeatureState 1 nCam 0 (0, 0, 1) 2.0 initCov fs in
  let fs2 := removeFeature 1 nCam 0 fs1 in
  st_dep (state_ fs1) !! 0%nat = Some 2 /\
  get_depth (state_ fs1) 0 = Some 0.5 /\
  (exists v, get_CfP (state_ fs1) 0 = Some v /\
             V3D_unit_parallel v (0, 0, 1) = true) /\
  get_depth (state_ fs2) 0 = Some 1 /\
  coeff (cov_ fs2) (getId 1 nCam _dep 0) (getId 1 nCam _dep 0) = Some 1.
Proof.
  intros Hwf Hdm Hlwf initCov fs1 fs2.
  pose proof (initializeFeatureState_wf 1 nCam fs 0 (0, 0, 1) 2 initCov Hwf) as Hwf1.
  fold fs1 in Hwf1.
  destruct (initializeFeatureState_lookup 1 nCam fs 0 (0, 0, 1) 2 initCov Hwf
              ltac:(lia)) as (Hd & Hn).
  fold fs1 in Hd, Hn.
  assert (get_CfP (state_ fs1) 0 = Some (NVE_getVec (NVE_setFromVector (0, 0, 1))))
    as Hb by (unfold get_CfP; by rewrite Hn).
  pose proof Hwf1 as ((_ & _ & Hdep1 & _) & Hcov1 & _).
  destruct (slot_update_entries 1 nCam (cov_ fs1) (cov_ fs2) 0 Identity_at Hcov1
              ltac:(lia) (cov_removeFeature 1 nCam fs1 0 Hwf1 ltac:(lia)))
    as (Hself & _).
  assert (depthMap_ (st_aux (state_ fs1)) = DepthMap.mk DepthMap.INVERSE) as Hdm1
    by (exact Hdm).
  split_and!.
  - exact Hd.
  - by rewrite (get_depth_lookup _ _ _ Hd), Hdm1.
  - eexists. split; [exact Hb | exact Hlwf].
  - assert (st_dep (state_ fs2) !! 0%nat = Some 1) as Hd2
      by (change (st_dep (state_ fs2)) with (<[0%nat := 1]> (st_dep (state_ fs1)));
          apply list_lookup_insert_eq; rewrite Hdep1; lia).
    rewrite (get_depth_lookup _ _ _ Hd2).
    change (st_aux (state_ fs2)) with (st_aux (state_ fs1)).
    by rewrite Hdm1.
  - apply (Hself 0%nat 0%nat); lia.
Qed.

End Scenario.

(** * Examples on the reference instances *)

Section Examples.
Import Reference.

Lemma fresh_FilterState_2_1_wf : FilterState_wf 2 1 (fresh_FilterState 2 1).
Proof. split_and!; try reflexivity; repeat constructor. Qed.

Lemma fresh_FilterState_1_1_wf : FilterState_wf 1 1 (fresh_FilterState 1 1).
Proof. split_and!; try reflexivity; repeat constructor. Qed.

Lemma initializeFeatureState_spec_witness :
  let fs' := initializeFeatureState 2 1 1 (0, 0, 2) 4 example_initCov
               (fresh_FilterState 2 1) in
  FilterState_wf 2 1 (fresh_FilterState 2 1) /\ (1 < 2)%nat /\
  st_dep (state_ fs') !! 1%nat = Some 4 /\
  coeff (cov_ fs') (slot_id 2 1 1 0) (slot_id 2 1 1 2) = Some 0.6 /\
  coeff (cov_ fs') (slot_id 2 1 1 1) 0 = Some 0.
Proof.
  pose proof (initializeFeatureState_spec 2 1 (fresh_FilterState 2 1) 1
                (0, 0, 2) 4 example_initCov fresh_FilterState_2_1_wf
                ltac:(lia)) as ((Hd & _) & Hcross & Hself & _).
  split_and!.
  - exact fresh_FilterState_2_1_wf.
  - lia.
  - exact Hd.
  - apply (Hself 0%nat 2%nat); lia.
  - apply (Hcross 1%nat 0%nat); [lia | vm_compute; lia |].
    intros k' Hk'. destruct k' as [|[|[|k']]]; vm_compute; lia.
Defined.

Lemma removeFeature_spec_witness :
  let fs' := removeFeature 2 1 1 (fresh_FilterState 2 1) in
  FilterState_wf 2 1 (fresh_FilterState 2 1) /\ (1 < 2)%nat /\
  st_dep (state_ fs') !! 1%nat = Some 1 /\
  exists dpt, get_depth (state_ fs') 1 = Some dpt /\
    is_finite dpt = true /\ (0 <? dpt) = true.
Proof.
  pose proof (removeFeature_spec 2 1 (fresh_FilterState 2 1) 1
                fresh_FilterState_2_1_wf ltac:(lia)
                ltac:(split; reflexivity) ltac:(split; reflexivity))
    as (Hd & _ & _ & _ & _ & Hdepth).
  split_and!; [exact fresh_FilterState_2_1_wf | lia | exact Hd | exact Hdepth].
Defined.

Lemma removeFeature_initializeFeatureState_witness :
  FilterState_wf 2 1 (fresh_FilterState 2 1) /\ (1 < 2)%nat /\
  initializeFeatureState 2 1 1 (0, 0, 2) 4 example_initCov
    (removeFeature 2 1 1 (fresh_FilterState 2 1))
  = initializeFeatureState 2 1 1 (0, 0, 2) 4 example_initCov
      (fresh_FilterState 2 1).
Proof.
  split_and!; [exact fresh_FilterState_2_1_wf | lia |].
  apply removeFeature_initializeFeatureState;
    [exact fresh_FilterState_2_1_wf | lia].
Defined.

Lemma removeFeature_idempotent_witness :
  FilterState_wf 2 1 (fresh_FilterState 2 1) /\ (1 < 2)%nat /\
  removeFeature 2 1 1 (removeFeature 2 1 1 (fresh_FilterState 2 1))
  = removeFeature 2 1 1 (fresh_FilterState 2 1).
Proof.
  split_and!; [exact fresh_FilterState_2_1_wf | lia |].
  apply removeFeature_idempotent; [exact fresh_FilterState_2_1_wf | lia].
Defined.

Lemma get_qCM_get_MrMC_spec_witness :
  let s := state_ (fresh_FilterState 2 1) in
  State_wf 2 1 s /\ (0 < 1)%nat /\
  get_qCM (set_st_aux (set_doVECalibration false (st_aux s)) s) 0
  = qCM_ (st_aux s) !! 0%nat.
Proof.
  pose proof (get_qCM_get_MrMC_spec 2 1 (state_ (fresh_FilterState 2 1)) 0
                (proj1 fresh_FilterState_2_1_wf) ltac:(lia))
    as (_ & _ & Hflag & _).
  split_and!; [exact (proj1 fresh_FilterState_2_1_wf) | lia |].
  exact (proj1 (Hflag false)).
Defined.

Lemma StateAuxiliary_ctor_INVERSE_witness :
  get_depth (State_ctor 2 1 (mkState V3D_Zero V3D_Zero V3D_Zero V3D_Zero
               QPD_setIdentity [] [] [0.25; 4] [] (StateAuxiliary_ctor 2 1).1)).1 0
  = Some 4.
Proof.
  destruct (StateAuxiliary_ctor_INVERSE (QPD := Quat) (NVE := V3D)
              (MultilevelPatchSet := unit) (cvMat := unit) 2 1)
    as (_ & _ & Hstate & _).
  destruct (Hstate (mkState V3D_Zero V3D_Zero V3D_Zero V3D_Zero
               QPD_setIdentity [] [] [0.25; 4] [] (StateAuxiliary_ctor 2 1).1))
    as (_ & Hdepth).
  destruct (Hdepth 0%nat 0.25 eq_refl) as (_ & Hinv).
  exact (Hinv eq_refl).
Defined.

Lemma scenario_one_slot_witness :
  let initCov : M3D := ((0.1, 0, 0), (0, 0.01, 0), (0, 0, 0.01)) in
  let fs1 := initializeFeatureState 1 1 0 (0, 0, 1) 2.0 initCov
               (fresh_FilterState 1 1) in
  FilterState_wf 1 1 (fresh_FilterState 1 1) /\
  get_depth (state_ fs1) 0 = Some 0.5 /\
  get_depth (state_ (removeFeature 1 1 0 fs1)) 0 = Some 1.
Proof.
  pose proof (scenario_one_slot 1 (fresh_FilterState 1 1)
                fresh_FilterState_1_1_wf eq_refl eq_refl)
    as (_ & H1 & _ & H2 & _).
  split_and!; [exact fresh_FilterState_1_1_wf | exact H1 | exact H2].
Defined.

(** C1, as stated, fails: on the constructed state with one slot the depth
    read back after initialising with 2.0 is 0.5, at distance 1.5 from 2.0. *)
Lemma scenario_depth_not_2 :
  get_depth
    (state_ (initializeFeatureState 1 1 0 (0, 0, 1) 2.0
               ((0.1, 0, 0), (0, 0.01, 0), (0, 0, 0.01))
               (fresh_FilterState 1 1))) 0 = Some 0.5 /\
  (abs (0.5 - 2.0) <? 1) = false.
Proof. split; reflexivity. Qed.

(** C8: [initWithImuPose] stores the rotated vector, not the supplied one.
    With the half turn about z as [qMW] and [WrWM = (1,0,0)] the position
    block becomes (-1,0,0). *)
Theorem initWithImuPose_position_rotated :
  let WrWM : V3D := (1, 0, 0) in
  let qMW : Quat := (0, 0, 0, 1) in
  let s' := state_ (initWithImuPose WrWM qMW (fresh_FilterState 1 1)) in
  st_pos s' = (-1, 0, 0) /\ st_pos s' <> WrWM /\
  st_att s' = QPD_inverted qMW.
Proof.
  split_and!; [reflexivity | | reflexivity].
  intros Heq. apply (f_equal (fun v => V3D_at v 0 =? 1)) in Heq.
  vm_compute in Heq. discriminate.
Qed.

End Examples.

(** * More facts about binary64 division and multiplication *)

Section SpecFloatSign.
#[local] Open Scope Z_scope.

Lemma Zdigits2_shr_1 mrs :
  0 <= shr_m mrs ->
  Zdigits2 (shr_m (shr_1 mrs)) = Z.max 0 (Zdigits2 (shr_m mrs) - 1).
Proof.
  destruct mrs as [m r s]; simpl. intros Hm.
  destruct m as [|[p|p|]|p]; simpl; lia.
Qed.

Lemma Zdigits2_iter_shr_1 n : forall mrs,
  0 <= shr_m mrs ->
  Zdigits2 (shr_m (SpecFloat.iter_pos shr_1 n mrs))
  = Z.max 0 (Zdigits2 (shr_m mrs) - Z.pos n).
Proof.
  induction n as [n IH|n IH|]; intros mrs Hm; simpl.
  - pose proof (shr_1_bounds mrs Hm) as H1.
    pose proof (iter_pos_shr_1_bounds n _ (proj1 H1)) as H2.
    rewrite IH, IH, Zdigits2_shr_1 by lia. lia.
  - pose proof (iter_pos_shr_1_bounds n _ Hm) as H2.
    rewrite IH, IH by lia. lia.
  - by apply Zdigits2_shr_1.
Qed.

Lemma Zdigits2_pos m : 0 <= m -> (0 < Zdigits2 m <-> 0 < m).
Proof. destruct m; simpl; lia. Qed.

(** Aligning a positive mantissa to the format never shifts all of its
    digits out when its exponent is at least [emin]. *)
Lemma shr_fexp_pos m e l :
  0 < m -> -1074 <= e ->
  0 < shr_m (shr_fexp prec emax m e l).1 /\ e <= (shr_fexp prec emax m e l).2.
Proof.
  intros Hm He.
  unfold shr_fexp, shr, fexp, SpecFloat.emin, prec, emax.
  assert (shr_m (shr_record_of_loc m l) = m) as Hrec
    by (by destruct l as [|[]]).
  pose proof (proj2 (Zdigits2_pos m ltac:(lia)) Hm) as Hd.
  destruct (Z.max (Zdigits2 m + e - 53) (3 - 1024 - 53) - e) as [|n|n] eqn:Hn;
    simpl; rewrite ?Hrec; try lia.
  pose proof (iter_pos_shr_1_bounds n (shr_record_of_loc m l) ltac:(lia)) as Hb.
  pose proof (Zdigits2_iter_shr_1 n (shr_record_of_loc m l) ltac:(lia)) as Hi.
  rewrite Hrec in Hi, Hb. split; [|lia].
  apply Zdigits2_pos; lia.
Qed.

Lemma binary_round_aux_nonzero sx mx ex lx K :
  0 < mx < 2 ^ K -> 0 <= K -> -1074 <= ex ->
  Z.max ex (-1074) + 2 * K + 1 <= 971 ->
  exists m e, binary_round_aux prec emax sx mx ex lx = S754_finite sx m e.
Proof.
  intros Hm HK Hex He. unfold binary_round_aux.
  pose proof (shr_fexp_bounds mx ex lx K ltac:(lia) HK) as [H1 H1e].
  pose proof (shr_fexp_pos mx ex lx ltac:(lia) Hex) as [H1p H1l].
  destruct (shr_fexp prec emax mx ex lx) as [mrs1 e1]; simpl in *.
  pose proof (round_nearest_even_bounds (shr_m mrs1) (loc_of_shr_record mrs1)) as Hr.
  set (m2 := round_nearest_even _ _) in *.
  assert (0 <= m2 < 2 ^ (K + 1)) as Hm2.
  { rewrite Z.pow_add_r by lia. lia. }
  pose proof (shr_fexp_bounds m2 e1 loc_Exact (K + 1) Hm2 ltac:(lia)) as [H2 H2e].
  pose proof (shr_fexp_pos m2 e1 loc_Exact ltac:(lia) ltac:(lia)) as [H2p _].
  destruct (shr_fexp prec emax m2 e1 loc_Exact) as [mrs2 e2]; simpl in *.
  destruct (shr_m mrs2) as [|p|p]; try lia.
  unfold emax, prec.
  destruct (Z.leb_spec e2 (1024 - 53)); [by eauto|lia].
Qed.

(** [1/y] is a finite non-zero number of the sign of [y] when [y] is finite
    with exponent at least -72. *)
Lemma SFdiv_one_nonzero s m e :
  valid_binary (S754_finite s m e) = true -> -72 <= e ->
  exists m' e', SF64div (Prim2SF 1) (S754_finite s m e) = S754_finite s m' e'.
Proof.
  intros Hv He. rewrite Prim2SF_one. unfold SF64div, SFdiv, SFdiv_core_binary.
  simpl in Hv. apply andb_prop in Hv as [Hc Hmax].
  unfold canonical_mantissa, fexp, SpecFloat.emin, prec, emax in Hc, Hmax.
  apply Z.eqb_eq in Hc. apply Z.leb_le in Hmax.
  pose proof (Zdigits2_le (Z.pos m)) as Hdig.
  set (d2 := Zdigits2 (Z.pos m)) in *.
  assert (0 < d2 <= 53) as Hd2 by (unfold d2; simpl; lia).
  assert (Z.pos m < 2 ^ 53) as Hm53.
  { destruct (Z_lt_ge_dec (Z.pos m) (2 ^ 53)) as [|Hge]; [done|]. exfalso.
    pose proof (Pos.size_gt m) as Hs. apply Pos2Z.pos_lt_pos in Hs.
    rewrite Pos2Z.inj_pow in Hs. rewrite <- digits2_pos_size in Hs.
    fold (Zdigits2 (Z.pos m)) in Hs. fold d2 in Hs.
    assert (2 ^ d2 <= 2 ^ 53) by (apply Z.pow_le_mono_r; lia). lia. }
  set (e' := Z.min _ _).
  assert (-1074 <= e' /\ -52 - e - 53 <= e' <= -52 - e /\
          (e' = -52 - d2 - e \/ e' = -1074)) as He'.
  { unfold e', fexp, SpecFloat.emin, prec, emax. simpl Zdigits2. fold d2. lia. }
  set (s' := -52 - e - e').
  assert (1 <= s' <= 53) as Hs' by (unfold s'; lia).
  set (m' := match s' with Z.pos _ => _ | _ => _ end).
  assert (2 ^ 53 <= m' < 2 ^ 106) as Hm'.
  { unfold m'. destruct s' as [|n|n] eqn:Hsn; try lia.
    rewrite Z.shiftl_mul_pow2 by lia.
    assert (2 ^ 1 <= 2 ^ Z.pos n <= 2 ^ 53) by
      (split; apply Z.pow_le_mono_r; lia).
    change (2 ^ 1) with 2 in *.
    change (2 ^ 53) with 9007199254740992 in *.
    change (2 ^ 106) with 81129638414606681695789005144064. lia. }
  change (2 ^ 53) with 9007199254740992 in *.
  pose proof (Z_div_mod m' (Z.pos m) ltac:(lia)) as Hdm.
  destruct (Z.div_eucl m' (Z.pos m)) as [q r].
  replace (xorb false s) with s by (by destruct s).
  apply (binary_round_aux_nonzero _ _ _ _ 106); [nia|lia|lia|lia].
Qed.

Lemma SF_is_finite_of_is_finite x :
  is_finite x = true -> SF_is_finite (Prim2SF x) = true.
Proof.
  unfold is_finite, is_nan, is_infinity.
  rewrite !FloatAxioms.eqb_spec, FloatAxioms.abs_spec.
  change (Prim2SF infinity) with (S754_infinity false).
  destruct (Prim2SF x) as [s|s| |s m e]; try done; by destruct s.
Qed.

(** The product [(-x) * x] is never above zero. *)
Lemma opp_mul_self_not_pos x : (0 <? (- x) * x)%float = false.
Proof.
  rewrite FloatAxioms.ltb_spec, FloatAxioms.mul_spec, FloatAxioms.opp_spec.
  change (Prim2SF 0) with (S754_zero false).
  destruct (Prim2SF x) as [s|s| |s m e];
    [by destruct s | by destruct s | done |].
  unfold SF64mul, SFmul, SFopp.
  replace (xorb (negb s) s) with true by (by destruct s).
  unfold binary_round_aux.
  destruct (shr_fexp _ _ _ _ _) as [mrs1 e1].
  destruct (shr_fexp _ _ _ _ _) as [mrs2 e2].
  destruct (shr_m mrs2); try done.
  by destruct (Z.leb _ _).
Qed.

End SpecFloatSign.

(** * DepthMap: further properties *)

Section DepthMapMore.
Context {libm : Libm}.
Import DepthMap.

Lemma div_one_sign p :
  is_finite p = true -> (abs p <? 1e-6) = false ->
  is_finite (1 / p) = true /\ (1 / p =? 0) = false /\
  (0 <? 1 / p) = (0 <=? p) /\ (1 / p <? 0) = negb (0 <=? p).
Proof.
  intros Hfin Hge.
  pose proof (SF_is_finite_of_is_finite p Hfin) as Hsf.
  pose proof (abs_ge_1e_6_inv p Hge) as He.
  pose proof (Prim2SF_valid p) as Hv.
  assert (exists s m e m' e', Prim2SF p = S754_finite s m e /\
            Prim2SF (1 / p) = S754_finite s m' e') as (s & m & e & m' & e' & Hp & Hq).
  { rewrite FloatAxioms.div_spec.
    destruct (Prim2SF p) as [s|s| |s m e]; try done.
    destruct (SFdiv_one_nonzero s m e Hv He) as (m' & e' & Hq). by eauto 10. }
  split; [apply is_finite_SF; by rewrite Hq|].
  rewrite FloatAxioms.eqb_spec, !FloatAxioms.ltb_spec, FloatAxioms.leb_spec.
  rewrite Hp, Hq. change (Prim2SF 0) with (S754_zero false).
  by destruct s.
Qed.

(** Under the inverse encoding every finite parameter, zero and the values
    below 1e-6 in magnitude included, gives a finite, non-zero depth of the
    sign selected by [p >= 0]: positive when [p >= 0] (also for -0.0),
    negative otherwise. *)
Theorem mapInverse_depth_sign (p : float) :
  is_finite p = true ->
  let d := out_d (mapInverse p) in
  is_finite d = true /\ (d =? 0) = false /\
  (0 <? d) = (0 <=? p) /\ (d <? 0) = negb (0 <=? p).
Proof.
  intros Hfin d. subst d.
  change (out_d (mapInverse p)) with (1 / mapInverse_p_temp p).
  unfold mapInverse_p_temp.
  destruct (abs p <? 1e-6) eqn:Hlt; [|by apply div_one_sign].
  by destruct (0 <=? p).
Qed.

(** Under the inverse encoding the derivatives [d_p = -d*d] and
    [p_d = -p_temp*p_temp] are never above zero, for every double [p]
    (NaN and the infinities included). *)
Theorem mapInverse_derivatives_not_pos (p : float) :
  (0 <? out_d_p (mapInverse p)) = false /\
  (0 <? out_p_d (mapInverse p)) = false /\
  forall dm, type_ dm = INVERSE ->
    (0 <? out_d_p (map dm p)) = false /\ (0 <? out_p_d (map dm p)) = false.
Proof.
  assert ((0 <? out_d_p (mapInverse p)) = false /\
          (0 <? out_p_d (mapInverse p)) = false) as H
    by (split; apply opp_mul_self_not_pos).
  split_and!; try apply H. intros dm Hdm. by rewrite map_INVERSE.
Qed.

End DepthMapMore.

(** [setType(int)] on the integer value of an enumerator does what
    [setType(DepthType)] does and prints nothing; for a selector in 0..3 the
    stored encoding has that integer value; and the call prints nothing only
    for a selector in 0..3. *)
Theorem setType_int_enum (type : Z) (t : DepthMap.DepthType) (dm : DepthMap.t) :
  DepthMap.setType_int (DepthType_int t) dm = (DepthMap.setType t dm, []) /\
  ((0 <= type <= 3)%Z ->
     (DepthMap.setType_int type dm).2 = [] /\
     DepthType_int (DepthMap.type_ (DepthMap.setType_int type dm).1) = type) /\
  ((DepthMap.setType_int type dm).2 = [] -> (0 <= type <= 3)%Z).
Proof.
  split_and!.
  - by destruct t.
  - intros Hty.
    destruct type as [|[[q|q|]|[q|q|]|]|q]; try lia; by vm_compute.
  - destruct type as [|[[q|q|]|[q|q|]|]|q]; try lia; discriminate.
Qed.

Lemma setType_int_enum_witness :
  (DepthMap.setType_int 2 DepthMap.ctor_default).2 = [] /\
  DepthType_int (DepthMap.type_ (DepthMap.setType_int 2 DepthMap.ctor_default).1) = 2%Z.
Proof.
  destruct (setType_int_enum 2 DepthMap.REGULAR DepthMap.ctor_default)
    as (_ & Hvalid & _).
  apply Hvalid. lia.
Defined.

Lemma mapInverse_depth_sign_witness :
  is_finite (-0)%float = true /\
  (0 <? DepthMap.out_d (DepthMap.mapInverse (-0)))%float = true.
Proof.
  split; [reflexivity|].
  destruct (mapInverse_depth_sign (-0)%float eq_refl) as (_ & _ & Hpos & _).
  rewrite Hpos. reflexivity.
Defined.

Lemma mapInverse_derivatives_not_pos_witness :
  (0 <? DepthMap.out_d_p (DepthMap.map (libm := Reference.Libm_series)
                            (DepthMap.ctor DepthMap.INVERSE) 0.25))%float
  = false.
Proof.
  destruct (mapInverse_derivatives_not_pos (libm := Reference.Libm_series) 0.25)
    as (_ & _ & Hmap).
  apply (Hmap (DepthMap.ctor DepthMap.INVERSE) eq_refl).
Defined.

(** * Layouts *)

Section LayoutFacts.
#[local] Open Scope nat_scope.
Variables (nMax nCam : nat).


Lemma PredictionNoise_getId e i :
  e <= PredictionNoise._nor ->
  layout_getId (PredictionNoise.layout nMax nCam) e i = getId nMax nCam e i.
Proof.
  intros He. unfold getId, layout_getId, PredictionNoise.layout, State_layout.
  do 9 (destruct e as [|e]; [simpl; unfold element_D; simpl; lia|]).
  unfold PredictionNoise._nor, PredictionNoise._dep, PredictionNoise._vea,
    PredictionNoise._vep, PredictionNoise._att, PredictionNoise._gyb,
    PredictionNoise._acb, PredictionNoise._vel, PredictionNoise._pos in He. lia.
Qed.

(** The process-noise vector has the dimension of the state, each of its
    nine blocks starts at the index of the state block of the same name, and
    the three [static_assert]s on the element counts hold. *)
Theorem PredictionNoise_mirrors_State e i :
  e <= PredictionNoise._nor ->
  layout_D (PredictionNoise.layout nMax nCam) = D_ nMax nCam /\
  layout_getId (PredictionNoise.layout nMax nCam) e i = getId nMax nCam e i /\
  S PredictionNoise._nor = length (PredictionNoise.layout nMax nCam) /\
  S _aux = E_ nMax nCam /\
  S PredictionMeas._gyr = length PredictionMeas.layout /\
  layout_D PredictionMeas.layout = 6.
Proof.
  intros He. split_and!; try reflexivity.
  by apply PredictionNoise_getId.
Qed.

End LayoutFacts.


Lemma PredictionNoise_mirrors_State_witness :
  layout_getId (PredictionNoise.layout 25 2) PredictionNoise._nor 3
  = getId 25 2 _nor 3.
Proof.
  destruct (PredictionNoise_mirrors_State 25 2 PredictionNoise._nor 3)
    as (_ & Hid & _); [unfold PredictionNoise._nor; lia | exact Hid].
Defined.

(** * FilterState: invariants and composition of the slot operations *)

Section FilterMore.
#[local] Open Scope nat_scope.
Context {QPD NVE : Type} {kindr : Kindr QPD} {lwf : LWF_NormalVector NVE}
  {libm : Libm} {MultilevelPatchSet cvMat : Type}.
Variables (nMax nCam : nat).

Abbreviation FS' := (@FilterState QPD NVE MultilevelPatchSet cvMat).
Abbreviation a_ i := (getId nMax nCam _dep i).
Abbreviation b_ i := (getId nMax nCam _nor i).

Lemma slot_pos_lt a b r : in_slot a b r = true -> slot_pos a b r < 3.
Proof.
  unfold in_slot, slot_pos. repeat case_bool_decide; simpl; try done; lia.
Qed.

Lemma slot_write_sym a b self r c x :
  (forall u v, u < 3 -> v < 3 -> self u v = self v u) ->
  slot_write a b self r c x = slot_write a b self c r x.
Proof.
  intros Hself. unfold slot_write.
  destruct (in_slot a b r) eqn:Hr, (in_slot a b c) eqn:Hc; simpl; try done.
  apply Hself; by apply slot_pos_lt.
Qed.

Lemma in_slot_disjoint i j r :
  i < nMax -> j < nMax -> i <> j ->
  in_slot (a_ i) (b_ i) r = true -> in_slot (a_ j) (b_ j) r = false.
Proof.
  intros Hi Hj Hij. unfold in_slot. rewrite !getId_dep, !getId_nor.
  repeat case_bool_decide; simpl; try done; lia.
Qed.

(** Updates of two different slots can be done in either order. *)
Lemma slot_write_comm i j self1 self2 r c x :
  i < nMax -> j < nMax -> i <> j ->
  slot_write (a_ i) (b_ i) self1 r c (slot_write (a_ j) (b_ j) self2 r c x)
  = slot_write (a_ j) (b_ j) self2 r c (slot_write (a_ i) (b_ i) self1 r c x).
Proof.
  intros Hi Hj Hij.
  pose proof (in_slot_disjoint i j r Hi Hj Hij) as Hr.
  pose proof (in_slot_disjoint i j c Hi Hj Hij) as Hc.
  unfold slot_write.
  destruct (in_slot (a_ i) (b_ i) r), (in_slot (a_ i) (b_ i) c);
    try rewrite (Hr eq_refl); try rewrite (Hc eq_refl); simpl; try done;
    by destruct (in_slot (a_ j) (b_ j) r), (in_slot (a_ j) (b_ j) c).
Qed.

(** The four operations that change a filter state keep its shape: the
    per-camera and per-slot arrays keep their lengths and the covariance
    matrix stays [D_ x D_]. *)
Theorem mutators_preserve_wf (fs : FS') i n d initCov WrWM qMW fMeasInit :
  FilterState_wf nMax nCam fs -> i < nMax ->
  FilterState_wf nMax nCam (initializeFeatureState nMax nCam i n d initCov fs) /\
  FilterState_wf nMax nCam (removeFeature nMax nCam i fs) /\
  FilterState_wf nMax nCam (initWithImuPose WrWM qMW fs) /\
  FilterState_wf nMax nCam (initWithAccelerometer fMeasInit fs).
Proof.
  intros Hwf Hi. split_and!.
  - by apply initializeFeatureState_wf.
  - by apply removeFeature_wf.
  - exact Hwf.
  - unfold initWithAccelerometer. by destruct (1e-6 <? V3D_norm fMeasInit)%float.
Qed.

(** [FilterState()] on a base object whose arrays and covariance matrix have
    the sizes fixed by the template parameters gives a well-formed filter
    state and prints nothing; prediction merging and extrinsics calibration
    are enabled, the image time and counter are zero, and because
    calibration is enabled the extrinsics accessors read the state blocks. *)
Theorem FilterState_ctor_wf (base : FS') :
  length (st_vep (state_ base)) = nCam -> length (st_vea (state_ base)) = nCam ->
  length (st_dep (state_ base)) = nMax -> length (st_nor (state_ base)) = nMax ->
  Matrix_wf (D_ nMax nCam) (D_ nMax nCam) (cov_ base) ->
  length (img_ base) = nCam ->
  let r := FilterState_ctor nMax nCam base in
  r.2 = [] /\ FilterState_wf nMax nCam r.1 /\
  usePredictionMerge_ r.1 = true /\ imgTime_ r.1 = 0%float /\
  imageCounter_ r.1 = 0%Z /\ cov_ r.1 = cov_ base /\
  doVECalibration_ (st_aux (state_ r.1)) = true /\
  (forall camID,
     get_qCM (state_ r.1) camID = st_vea (state_ base) !! camID /\
     get_MrMC (state_ r.1) camID = st_vep (state_ base) !! camID) /\
  (forall camID, camID < nCam ->
     qCM_ (st_aux (state_ r.1)) !! camID = Some QPD_setIdentity /\
     MrMC_ (st_aux (state_ r.1)) !! camID = Some V3D_Zero) /\
  (forall i, i < nMax ->
     camID_ (st_aux (state_ r.1)) !! i = Some 0%Z /\
     bearingMeas_ (st_aux (state_ r.1)) !! i = Some NVE_setIdentity).
Proof.
  intros Hvep Hvea Hdep Hnor Hcov Himg r. subst r. simpl.
  split_and!; try done.
  - unfold FilterState_wf, State_wf, StateAuxiliary_wf; simpl.
    rewrite !length_replicate. by split_and!.
  - intros camID Hc. by rewrite !lookup_replicate_2.
  - intros i Hi. by rewrite !lookup_replicate_2.
Qed.

(** [removeFeature] keeps the covariance matrix symmetric, and so does
    [initializeFeatureState] when [initCov] is symmetric. *)
Theorem slot_updates_preserve_symmetry (fs : FS') i n d initCov :
  FilterState_wf nMax nCam fs -> i < nMax ->
  Matrix_symmetric (cov_ fs) ->
  Matrix_symmetric (cov_ (removeFeature nMax nCam i fs)) /\
  (M3D_symmetric initCov ->
   Matrix_symmetric (cov_ (initializeFeatureState nMax nCam i n d initCov fs))).
Proof.
  intros Hwf Hi Hsym. split.
  - rewrite cov_removeFeature by done. intros r c.
    rewrite !coeff_mat_imap, (Hsym r c).
    destruct (coeff (cov_ fs) c r) as [x|]; [|done]. simpl. f_equal.
    apply slot_write_sym. intros u v _ _. unfold Identity_at.
    repeat case_bool_decide; done.
  - intros HC. rewrite cov_initializeFeatureState by done. intros r c.
    rewrite !coeff_mat_imap, (Hsym r c).
    destruct (coeff (cov_ fs) c r) as [x|]; [|done]. simpl. f_equal.
    by apply slot_write_sym.
Qed.

(** Operations on two different slots commute: two initialisations, an
    initialisation and a removal, two removals. *)
Theorem slot_operations_commute (fs : FS') i j n1 d1 C1 n2 d2 C2 :
  FilterState_wf nMax nCam fs -> i < nMax -> j < nMax -> i <> j ->
  initializeFeatureState nMax nCam i n1 d1 C1
    (initializeFeatureState nMax nCam j n2 d2 C2 fs)
  = initializeFeatureState nMax nCam j n2 d2 C2
      (initializeFeatureState nMax nCam i n1 d1 C1 fs) /\
  removeFeature nMax nCam i (initializeFeatureState nMax nCam j n2 d2 C2 fs)
  = initializeFeatureState nMax nCam j n2 d2 C2 (removeFeature nMax nCam i fs) /\
  removeFeature nMax nCam i (removeFeature nMax nCam j fs)
  = removeFeature nMax nCam j (removeFeature nMax nCam i fs).
Proof.
  intros Hwf Hi Hj Hij.
  split_and!; apply FilterState_ext; try done;
    try (simpl; unfold set_st_nor, set_st_dep; simpl;
         f_equal; by apply list_insert_insert_ne);
    repeat first
      [ rewrite cov_initializeFeatureState
          by auto using initializeFeatureState_wf, removeFeature_wf
      | rewrite cov_removeFeature
          by auto using initializeFeatureState_wf, removeFeature_wf ];
    rewrite !mat_imap_compose;
    (eapply mat_imap_ext; [apply Hwf|]); intros r c x _ _;
    by apply slot_write_comm.
Qed.

(** A slot operation hides an earlier initialisation of the same slot:
    initialising twice is initialising with the last arguments, and removing
    an initialised feature is removing it from the state before. *)
Theorem slot_operation_overrides (fs : FS') i n1 d1 C1 n2 d2 C2 :
  FilterState_wf nMax nCam fs -> i < nMax ->
  initializeFeatureState nMax nCam i n2 d2 C2
    (initializeFeatureState nMax nCam i n1 d1 C1 fs)
  = initializeFeatureState nMax nCam i n2 d2 C2 fs /\
  removeFeature nMax nCam i (initializeFeatureState nMax nCam i n1 d1 C1 fs)
  = removeFeature nMax nCam i fs.
Proof.
  intros Hwf Hi.
  split; apply FilterState_ext; try done;
    try (simpl; unfold set_st_nor, set_st_dep; simpl;
         by rewrite !list_insert_insert_eq);
    repeat first
      [ rewrite cov_initializeFeatureState by auto using initializeFeatureState_wf
      | rewrite cov_removeFeature by auto using initializeFeatureState_wf ];
    rewrite mat_imap_compose;
    (eapply mat_imap_ext; [apply Hwf|]); intros r c x _ _;
    apply slot_write_slot_write.
Qed.

(** [initializeFeatureState] stores its argument [d] as the depth
    parameter: [get_depth] reads back [d] itself under the regular encoding
    and the reciprocal [1/d] under the inverse encoding (for [d] not below
    1e-6 in magnitude). *)
Theorem get_depth_initializeFeatureState (fs : FS') i n d initCov :
  FilterState_wf nMax nCam fs -> i < nMax ->
  let s' := state_ (initializeFeatureState nMax nCam i n d initCov fs) in
  let type := DepthMap.type_ (depthMap_ (st_aux (state_ fs))) in
  (type = DepthMap.REGULAR -> get_depth s' i = Some d) /\
  (type = DepthMap.INVERSE ->
     get_depth s' i = Some (DepthMap.out_d (DepthMap.mapInverse d)) /\
     ((abs d <? 1e-6)%float = false -> get_depth s' i = Some (1 / d)%float)).
Proof.
  intros Hwf Hi s' type.
  destruct (initializeFeatureState_lookup nMax nCam fs i n d initCov Hwf Hi)
    as [Hd _].
  pose proof (get_depth_lookup _ _ _ Hd) as Hg. fold s' in Hg.
  change (st_aux s') with (st_aux (state_ fs)) in Hg.
  unfold DepthMap.map in Hg. fold type in Hg.
  split; intros Hty; rewrite Hty in Hg; [done|].
  split; [done|]. intros Hge. rewrite Hg. f_equal.
  change (DepthMap.out_d (DepthMap.mapInverse d))
    with (1 / DepthMap.mapInverse_p_temp d)%float.
  unfold DepthMap.mapInverse_p_temp. by rewrite Hge.
Qed.

(** Initialising or removing slot [i] leaves every other slot [j] as it
    was: its depth, its bearing, and its own 3x3 covariance block. *)
Theorem slot_operations_keep_other_slots (fs : FS') i j n d initCov :
  FilterState_wf nMax nCam fs -> i < nMax -> j < nMax -> j <> i ->
  forall fs', fs' = initializeFeatureState nMax nCam i n d initCov fs \/
              fs' = removeFeature nMax nCam i fs ->
  get_depth (state_ fs') j = get_depth (state_ fs) j /\
  get_CfP (state_ fs') j = get_CfP (state_ fs) j /\
  forall u v, u < 3 -> v < 3 ->
    coeff (cov_ fs') (slot_id nMax nCam j u) (slot_id nMax nCam j v)
    = coeff (cov_ fs) (slot_id nMax nCam j u) (slot_id nMax nCam j v).
Proof.
  intros Hwf Hi Hj Hji fs' Hfs'.
  assert (forall u k, u < 3 -> k < 3 ->
            slot_id nMax nCam j u <> slot_id nMax nCam i k) as Hne.
  { intros u k Hu Hk Heq.
    unfold slot_id in Heq. rewrite !getId_dep, !getId_nor in Heq.
    destruct u as [|u], k as [|k]; lia. }
  destruct Hfs' as [-> | ->].
  - split_and!.
    + unfold get_depth; simpl. by rewrite list_lookup_insert_ne.
    + unfold get_CfP; simpl. by rewrite list_lookup_insert_ne.
    + intros u v Hu Hv. rewrite cov_initializeFeatureState by done.
      rewrite coeff_mat_imap.
      destruct (coeff (cov_ fs) _ _) as [x|]; [|done]. simpl.
      rewrite slot_write_other; [done| |]; intros k Hk; by apply Hne.
  - split_and!.
    + unfold get_depth; simpl. by rewrite list_lookup_insert_ne.
    + unfold get_CfP; simpl. by rewrite list_lookup_insert_ne.
    + intros u v Hu Hv. rewrite cov_removeFeature by done.
      rewrite coeff_mat_imap.
      destruct (coeff (cov_ fs) _ _) as [x|]; [|done]. simpl.
      rewrite slot_write_other; [done| |]; intros k Hk; by apply Hne.
Qed.

(** The two pose initialisers write the position and attitude blocks only:
    the covariance matrix, the feature slots, the extrinsics and the
    auxiliary state are untouched, [initWithAccelerometer] keeps the
    position, and [initWithImuPose] hides any earlier pose initialisation. *)
Theorem pose_initialisers_frame (fs : FS') WrWM qMW fMeasInit :
  let fs1 := initWithImuPose WrWM qMW fs in
  let fs2 := initWithAccelerometer fMeasInit fs in
  (forall fs', fs' = fs1 \/ fs' = fs2 ->
     cov_ fs' = cov_ fs /\
     st_vel (state_ fs') = st_vel (state_ fs) /\
     st_acb (state_ fs') = st_acb (state_ fs) /\
     st_gyb (state_ fs') = st_gyb (state_ fs) /\
     st_aux (state_ fs') = st_aux (state_ fs) /\
     (forall i, get_depth (state_ fs') i = get_depth (state_ fs) i /\
                get_CfP (state_ fs') i = get_CfP (state_ fs) i) /\
     (forall camID, get_qCM (state_ fs') camID = get_qCM (state_ fs) camID /\
                    get_MrMC (state_ fs') camID = get_MrMC (state_ fs) camID)) /\
  st_pos (state_ fs2) = st_pos (state_ fs) /\
  (st_att (state_ fs2) = QPD_setFromVectors (0, 0, 1)%float fMeasInit \/
   st_att (state_ fs2) = QPD_setIdentity) /\
  initWithImuPose WrWM qMW fs2 = fs1 /\
  initWithImuPose WrWM qMW fs1 = fs1.
Proof.
  intros fs1 fs2. subst fs1 fs2. unfold initWithAccelerometer.
  destruct (1e-6 <? V3D_norm fMeasInit)%float; split_and!; try done;
    try (intros fs' [-> | ->]; by split_and!); auto.
Qed.

End FilterMore.

(** * Further examples on the reference instances *)

Section ExamplesMore.
Import Reference.
#[local] Open Scope nat_scope.

Lemma coeff_Matrix_Identity n r c :
  coeff (Matrix_Identity n) r c =
  if bool_decide (r < n /\ c < n) then Some (Identity_at r c) else None.
Proof.
  unfold coeff, Matrix_Identity. rewrite list_lookup_imap.
  destruct (decide (r < n)) as [Hr|Hr].
  - rewrite lookup_replicate_2 by done. simpl. rewrite list_lookup_imap.
    destruct (decide (c < n)) as [Hc|Hc].
    + rewrite lookup_replicate_2 by done. simpl.
      by rewrite (bool_decide_eq_true_2 (r < n /\ c < n)) by done.
    + rewrite lookup_ge_None_2 by (rewrite length_replicate; lia). simpl.
      by rewrite bool_decide_eq_false_2 by lia.
  - rewrite lookup_ge_None_2 by (rewrite length_replicate; lia). simpl.
    by rewrite bool_decide_eq_false_2 by lia.
Qed.

Lemma fresh_FilterState_2_1_symmetric :
  Matrix_symmetric (cov_ (fresh_FilterState 2 1)).
Proof.
  intros r c. change (cov_ (fresh_FilterState 2 1)) with (Matrix_Identity (D_ 2 1)).
  rewrite !coeff_Matrix_Identity. unfold Identity_at.
  repeat case_bool_decide; try done; lia.
Qed.

Lemma diag_initCov_symmetric :
  M3D_symmetric ((0.1, 0, 0), (0, 0.01, 0), (0, 0, 0.01))%float.
Proof.
  intros u v Hu Hv.
  destruct u as [|[|[|u]]]; try lia; destruct v as [|[|[|v]]]; try lia; reflexivity.
Qed.

Lemma mutators_preserve_wf_witness :
  FilterState_wf 2 1 (removeFeature 2 1 1 (fresh_FilterState 2 1)).
Proof.
  apply (mutators_preserve_wf 2 1 (fresh_FilterState 2 1) 1 (0, 0, 1)%float
           2%float example_initCov (1, 0, 0)%float (0, 0, 0, 1)%float
           (0, 0, 1)%float fresh_FilterState_2_1_wf ltac:(lia)).
Defined.

Lemma FilterState_ctor_wf_witness :
  FilterState_wf 2 1 (FilterState_ctor 2 1 (base_FilterState 2 1)).1.
Proof.
  apply (FilterState_ctor_wf 2 1 (base_FilterState 2 1));
    try reflexivity.
  split; [reflexivity | repeat constructor].
Defined.

Lemma slot_updates_preserve_symmetry_witness :
  Matrix_symmetric
    (cov_ (initializeFeatureState 2 1 1 (0, 0, 1)%float 2%float
             ((0.1, 0, 0), (0, 0.01, 0), (0, 0, 0.01))%float
             (fresh_FilterState 2 1))).
Proof.
  apply (slot_updates_preserve_symmetry 2 1 (fresh_FilterState 2 1) 1
           (0, 0, 1)%float 2%float _ fresh_FilterState_2_1_wf ltac:(lia)
           fresh_FilterState_2_1_symmetric).
  exact diag_initCov_symmetric.
Defined.

Lemma slot_operations_commute_witness :
  removeFeature 2 1 0
    (initializeFeatureState 2 1 1 (0, 0, 1)%float 2%float example_initCov
       (fresh_FilterState 2 1))
  = initializeFeatureState 2 1 1 (0, 0, 1)%float 2%float example_initCov
      (removeFeature 2 1 0 (fresh_FilterState 2 1)).
Proof.
  apply (slot_operations_commute 2 1 (fresh_FilterState 2 1) 0 1
           (0, 0, 1)%float 2%float example_initCov
           (0, 0, 1)%float 2%float example_initCov
           fresh_FilterState_2_1_wf); lia.
Defined.

Lemma slot_operation_overrides_witness :
  removeFeature 2 1 1
    (initializeFeatureState 2 1 1 (0, 0, 1)%float 2%float example_initCov
       (fresh_FilterState 2 1))
  = removeFeature 2 1 1 (fresh_FilterState 2 1).
Proof.
  apply (slot_operation_overrides 2 1 (fresh_FilterState 2 1) 1
           (0, 0, 1)%float 2%float example_initCov
           (0, 0, 1)%float 2%float example_initCov
           fresh_FilterState_2_1_wf); lia.
Defined.

Lemma get_depth_initializeFeatureState_witness :
  get_depth
    (state_ (initializeFeatureState 2 1 1 (0, 0, 1)%float 4%float example_initCov
               (fresh_FilterState 2 1))) 1
  = Some 0.25%float.
Proof.
  destruct (get_depth_initializeFeatureState 2 1 (fresh_FilterState 2 1) 1
              (0, 0, 1)%float 4%float example_initCov
              fresh_FilterState_2_1_wf ltac:(lia)) as [_ Hinv].
  destruct (Hinv eq_refl) as [_ Hrec]. exact (Hrec eq_refl).
Defined.

Lemma slot_operations_keep_other_slots_witness :
  get_depth (state_ (removeFeature 2 1 1 (fresh_FilterState 2 1))) 0
  = get_depth (state_ (fresh_FilterState 2 1)) 0.
Proof.
  destruct (slot_operations_keep_other_slots 2 1 (fresh_FilterState 2 1) 1 0
              (0, 0, 1)%float 2%float example_initCov
              fresh_FilterState_2_1_wf ltac:(lia) ltac:(lia) ltac:(lia)
              (removeFeature 2 1 1 (fresh_FilterState 2 1))
              (or_intror eq_refl)) as [Hd _].
  exact Hd.
Defined.

Lemma pose_initialisers_frame_witness :
  cov_ (initWithImuPose (1, 0, 0)%float ((0, 0, 0, 1)%float : Quat)
          (fresh_FilterState 2 1))
  = cov_ (fresh_FilterState 2 1).
Proof.
  destruct (pose_initialisers_frame (fresh_FilterState 2 1) (1, 0, 0)%float
              ((0, 0, 0, 1)%float : Quat) (0, 0, 1)%float) as [Hframe _].
  destruct (Hframe _ (or_introl eq_refl)) as [Hcov _]. exact Hcov.
Defined.

End ExamplesMore.
